(** * kaldi_helpers: the pronunciation-dictionary builder and the transcript cleaner

    A shallow embedding of [make_prn_dict.py] and [clean_json.py].

    Python [str] values are modelled by Rocq strings whose characters are read
    as the code points U+0000..U+00FF; the string methods the scripts call
    ([lower], [strip], [split], [find], [join], [replace], [isdigit] and the
    regular expression [\d]) are written out below with CPython's behaviour
    on that range.  Exceptions are values of [exn]; a run either returns or
    raises, and the loops that CPython would not leave are cut by fuel. *)

From Stdlib Require Import ZArith QArith Lia Ascii String List Sorted Permutation.
From Stdlib Require Import Floats.SpecFloat.
From stdpp Require Import sorting base tactics option list strings gmap functions.

Open Scope Z_scope.
Open Scope nat_scope.

(** ** Exceptions and outcomes *)

Inductive exn : Type :=
| AttributeError (msg : string)
| TypeError (msg : string)
| IndexError (msg : string)
| OverflowError (msg : string)
| ZeroDivisionError (msg : string).

Inductive outcome (A : Type) : Type :=
| Returned (a : A)
| Raised (e : exn)
| OutOfFuel.

Arguments Returned {A} a.
Arguments Raised {A} e.
Arguments OutOfFuel {A}.

Global Instance outcome_ret : MRet outcome := fun A a => Returned a.
Global Instance outcome_bind : MBind outcome := fun A B k o =>
  match o with
  | Returned a => k a
  | Raised e => Raised e
  | OutOfFuel => OutOfFuel
  end.

(** A computation over a state [S]: the state reached is kept when an
    exception leaves the function, as the writes made before it are. *)
Definition M (S A : Type) : Type := S -> S * outcome A.

Global Instance M_ret {S : Type} : MRet (M S) := fun A a s => (s, Returned a).
Global Instance M_bind {S : Type} : MBind (M S) := fun A B k m s =>
  match m s with
  | (s', Returned a) => k a s'
  | (s', Raised e) => (s', Raised e)
  | (s', OutOfFuel) => (s', OutOfFuel)
  end.

Definition raise {S A : Type} (e : exn) : M S A := fun s => (s, Raised e).
Definition lift {S A : Type} (o : outcome A) : M S A := fun s => (s, o).
Definition modify {S : Type} (f : S -> S) : M S unit := fun s => (f s, Returned tt).
Definition gets {S A : Type} (f : S -> A) : M S A := fun s => (s, Returned (f s)).

(** ** Python strings on the code points below 256 *)

Module Str.

Definition code (c : ascii) : N := N_of_ascii c.

Definition between (lo hi : N) (c : ascii) : bool :=
  ((lo <=? code c)%N && (code c <=? hi)%N)%bool.

(** [str.isspace] of one character: TAB..CR, FS..US, space, NEL, NBSP. *)
Definition isspace (c : ascii) : bool :=
  (between 9 13 c || between 28 32 c || (code c =? 133)%N || (code c =? 160)%N)%bool.

(** The class [\d] of [re] on [str] patterns: the decimal digits (category Nd). *)
Definition isdecimal (c : ascii) : bool := between 48 57 c.

(** [str.isdigit] of one character: also the superscripts U+00B2, U+00B3, U+00B9. *)
Definition isdigit_char (c : ascii) : bool :=
  (between 48 57 c || (code c =? 178)%N || (code c =? 179)%N || (code c =? 185)%N)%bool.

(** [str.lower] of one character: A..Z and U+00C0..U+00DE without U+00D7. *)
Definition lower_char (c : ascii) : ascii :=
  if (between 65 90 c || (between 192 222 c && negb (code c =? 215)%N))%bool
  then ascii_of_N (code c + 32)
  else c.

Fixpoint lower (s : string) : string :=
  match s with
  | EmptyString => EmptyString
  | String c s' => String (lower_char c) (lower s')
  end.

Fixpoint lstrip (s : string) : string :=
  match s with
  | EmptyString => EmptyString
  | String c s' => if isspace c then lstrip s' else s
  end.

Fixpoint rstrip (s : string) : string :=
  match s with
  | EmptyString => EmptyString
  | String c s' =>
      match rstrip s' with
      | EmptyString => if isspace c then EmptyString else String c EmptyString
      | r => String c r
      end
  end.

(** [s.strip()] *)
Definition strip (s : string) : string := rstrip (lstrip s).

(** [s.split()]: the maximal runs of non-whitespace characters.  [cur] is
    the run being read. *)
Fixpoint split_ws_aux (s : string) (cur : string) : list string :=
  match s with
  | EmptyString => match cur with EmptyString => [] | _ => [cur] end
  | String c s' =>
      if isspace c
      then match cur with
           | EmptyString => split_ws_aux s' EmptyString
           | _ => cur :: split_ws_aux s' EmptyString
           end
      else split_ws_aux s' (cur +:+ String c EmptyString)
  end.

Definition split (s : string) : list string := split_ws_aux s EmptyString.

(** [s.split(' ', 1)]: cut at the first space, if there is one. *)
Fixpoint split_space1 (s : string) : list string :=
  match s with
  | EmptyString => [EmptyString]
  | String c s' =>
      if Ascii.eqb c " "%char then [EmptyString; s']
      else match split_space1 s' with
           | [] => [String c EmptyString]
           | h :: t => String c h :: t
           end
  end.

(** [sep.join(l)] *)
Fixpoint join (sep : string) (l : list string) : string :=
  match l with
  | [] => EmptyString
  | [x] => x
  | x :: l' => x +:+ sep +:+ join sep l'
  end.

(** [s.find(sub, start)], with [-1] when [sub] does not occur from [start] on;
    [String.index] is the search itself. *)
Definition find (s sub : string) (start : nat) : Z :=
  match String.index start sub s with
  | Some i => Z.of_nat i
  | None => (-1)%Z
  end.

(** [s[i]] *)
Definition getitem (s : string) (i : nat) : outcome string :=
  match String.get i s with
  | Some c => Returned (String c EmptyString)
  | None => Raised (IndexError "string index out of range")
  end.

(** [s.replace(mark, "")] for a one-character [mark]. *)
Fixpoint remove_char (mark : ascii) (s : string) : string :=
  match s with
  | EmptyString => EmptyString
  | String c s' =>
      if Ascii.eqb c mark then remove_char mark s' else String c (remove_char mark s')
  end.

Fixpoint forallb (p : ascii -> bool) (s : string) : bool :=
  match s with
  | EmptyString => true
  | String c s' => (p c && forallb p s')%bool
  end.

Fixpoint existsb (p : ascii -> bool) (s : string) : bool :=
  match s with
  | EmptyString => false
  | String c s' => (p c || existsb p s')%bool
  end.

(** [s.isdigit()]: every character is a digit and there is at least one. *)
Definition isdigit (s : string) : bool :=
  match s with
  | EmptyString => false
  | _ => forallb isdigit_char s
  end.

(** [bool(re.search(r"\d", s))] *)
Definition search_digit (s : string) : bool := existsb isdecimal s.

(** Truthiness of a [str]: the empty string is falsy. *)
Definition truthy (s : string) : bool :=
  match s with EmptyString => false | _ => true end.

Definition nl : string := String "010"%char EmptyString.

(** [f.readlines()] of a text stream, its line ends already translated to
    ['\n']: every line keeps its ['\n']; a last line without one is returned
    as it is, and no line is empty. *)
Fixpoint readlines_aux (s : string) (cur : string) : list string :=
  match s with
  | EmptyString => match cur with EmptyString => [] | _ => [cur] end
  | String c s' =>
      if Ascii.eqb c "010"%char
      then (cur +:+ nl) :: readlines_aux s' EmptyString
      else readlines_aux s' (cur +:+ String c EmptyString)
  end.

Definition readlines (content : string) : list string :=
  readlines_aux content EmptyString.

End Str.

(** ** make_prn_dict.py *)

(** The two kinds of container the script's [oov_characters] can denote:
    the literal [{}] is an empty [dict]; [.add] exists on [set] only. *)
Inductive pyobj : Type :=
| PyDict (d : gmap string string)
| PySet (s : gset string).

(** [o.add(x)] *)
Definition add (o : pyobj) (x : string) : outcome pyobj :=
  match o with
  | PySet s => Returned (PySet ({[ x ]} ∪ s))
  | PyDict _ => Raised (AttributeError "'dict' object has no attribute 'add'")
  end.

(** The elements a [for] loop over the container visits (the keys of a
    [dict]); their order is the container's own. *)
Definition iterate (o : pyobj) : list string :=
  match o with
  | PySet s => elements s
  | PyDict d => (map_to_list d).*1
  end.

(** What a run of [generate_dictionary] writes: the lines written to the
    lexicon file, the [oov_characters] container, the lines printed to
    [sys.stderr]. *)
Record lexicon_run : Type := {
  output_file : list string;
  oov_characters : pyobj;
  stderr : list string
}.

Definition write (line : string) : M lexicon_run unit :=
  modify (fun st => {| output_file := output_file st ++ [line];
                       oov_characters := oov_characters st;
                       stderr := stderr st |}).

Definition print_stderr (line : string) : M lexicon_run unit :=
  modify (fun st => {| output_file := output_file st;
                       oov_characters := oov_characters st;
                       stderr := stderr st ++ [line] |}).

(** [oov_characters.add(c)] *)
Definition oov_add (c : string) : M lexicon_run unit :=
  fun st =>
    match add (oov_characters st) c with
    | Returned o => ({| output_file := output_file st;
                        oov_characters := o;
                        stderr := stderr st |}, Returned tt)
    | Raised e => (st, Raised e)
    | OutOfFuel => (st, OutOfFuel)
    end.

(** [parse_input], on the text of the word list. *)
Fixpoint parse_input_lines (lines : list string) : list string :=
  match lines with
  | [] => []
  | line :: rest =>
      let token := Str.strip line in
      if 0 <? String.length token
      then token :: parse_input_lines rest
      else parse_input_lines rest
  end.

Definition parse_input (input_file : string) : list string :=
  parse_input_lines (Str.readlines input_file).

(** The loop of [parse_configs] over the lines of the config file: the
    mappings in the order they are appended. *)
Fixpoint collect_mappings (lines : list string) : outcome (list (string * string)) :=
  match lines with
  | [] => Returned []
  | line :: rest =>
      c ← Str.getitem line 0;
      if String.eqb c "#" then collect_mappings rest
      else
        let mapping := List.filter Str.truthy (Str.split_space1 (Str.strip line)) in
        match mapping with
        | m0 :: m1 :: _ =>
            sound_mappings ← collect_mappings rest;
            Returned ((m0, m1) :: sound_mappings)
        | _ => collect_mappings rest
        end
  end.

(** [l.sort(key=key, reverse=True)]: the stable sort by decreasing key.
    [x] stood before every element of [l], so it goes before the elements
    of its own key. *)
Fixpoint insert_reverse {A : Type} (key : A -> nat) (x : A) (l : list A) : list A :=
  match l with
  | [] => [x]
  | y :: l' => if key x <? key y then y :: insert_reverse key x l' else x :: y :: l'
  end.

Fixpoint sort_reverse {A : Type} (key : A -> nat) (l : list A) : list A :=
  match l with
  | [] => []
  | x :: l' => insert_reverse key x (sort_reverse key l')
  end.

Definition grapheme_length (maps : string * string) : nat := String.length maps.1.

Definition parse_configs (config_file : string) : outcome (list (string * string)) :=
  sound_mappings ← collect_mappings (Str.readlines config_file);
  Returned (sort_reverse grapheme_length sound_mappings).

(** The [for maps in sound_mappings] loop: the first mapping that
    [token_lower.find(maps[0], current_index) == current_index] accepts. *)
Definition accepts (token_lower : string) (current_index : nat) (maps : string * string) : bool :=
  (Str.find token_lower maps.1 current_index =? Z.of_nat current_index)%Z.

Definition first_match (sound_mappings : list (string * string))
    (token_lower : string) (current_index : nat) : option (string * string) :=
  List.find (accepts token_lower current_index) sound_mappings.

(** The [while current_index < len(token_lower)] loop. *)
Fixpoint segment (fuel : nat) (sound_mappings : list (string * string))
    (token_lower : string) (current_index : nat) (res : list string)
    : M lexicon_run (list string) :=
  if current_index <? String.length token_lower then
    match fuel with
    | O => lift OutOfFuel
    | S fuel' =>
        match first_match sound_mappings token_lower current_index with
        | Some maps =>
            segment fuel' sound_mappings token_lower
              (current_index + String.length maps.1) (res ++ [maps.2])
        | None =>
            c ← lift (Str.getitem token_lower current_index);
            oov_add c;;
            segment fuel' sound_mappings token_lower
              (current_index + 1) (res ++ ["(" +:+ c +:+ ")"])
        end
    end
  else mret res.

(** The [for token in input_tokens] loop.  A pass of the inner loop moves the
    cursor by a grapheme of the table, which [parse_configs] never leaves
    empty, so [len(token_lower)] passes are all it can make. *)
Fixpoint write_entries (sound_mappings : list (string * string))
    (input_tokens : list string) : M lexicon_run unit :=
  match input_tokens with
  | [] => mret tt
  | token :: rest =>
      let token_lower := Str.lower token in
      res ← segment (String.length token_lower) sound_mappings token_lower 0 [token];
      write (Str.join " " res +:+ Str.nl);;
      write_entries sound_mappings rest
  end.

Fixpoint report (characters : list string) : M lexicon_run unit :=
  match characters with
  | [] => mret tt
  | character :: rest =>
      print_stderr ("Unexpected character: " +:+ character);;
      report rest
  end.

Definition lexicon_start : lexicon_run :=
  {| output_file := []; oov_characters := PyDict ∅; stderr := [] |}.

(** [generate_dictionary], on the texts of the word list and of the config
    file; [lexicon_start] has [oov_characters: set = {}]. *)
Definition generate_dictionary (input_file config_file : string)
    : lexicon_run * outcome unit :=
  let input_tokens := parse_input input_file in
  (sound_mappings ← lift (parse_configs config_file);
   write ("!SIL sil" +:+ Str.nl);;
   write ("<UNK> spn" +:+ Str.nl);;
   write_entries sound_mappings input_tokens;;
   characters ← gets (fun st => iterate (oov_characters st));
   report characters) lexicon_start.

Definition lines (l : list string) : string :=
  fold_right (fun line text => line +:+ Str.nl +:+ text) EmptyString l.

(** ** Predicates the claims are stated with *)

(** The grapheme [g] is read in [token_lower] at the cursor. *)
Definition occurs_at (token_lower : string) (current_index : nat) (g : string) : Prop :=
  String.substring current_index (String.length g) token_lower = g.

(** The keys do not grow along the list. *)
Definition decreasing {A : Type} (key : A -> nat) : list A -> Prop :=
  StronglySorted (fun a b => key b <= key a).

(** ** The segmentation in the words of the specification *)

(** The grapheme of the mapping matches the word starting exactly at the
    cursor. *)
Definition matches_at (word : string) (cursor : nat) (maps : string * string) : bool :=
  String.eqb (String.substring cursor (String.length maps.1) word) maps.1.

(** From the cursor to the end of the word: the table is scanned in its
    order and the first mapping that matches at the cursor is accepted, its
    phoneme appended and the cursor advanced by the length of its grapheme.
    [None] when a cursor has no mapping that matches, or when more than
    [cursors] cursors are needed. *)
Fixpoint first_match_phonemes (cursors : nat) (table : list (string * string))
    (word : string) (cursor : nat) : option (list string) :=
  if cursor <? String.length word then
    match cursors with
    | O => None
    | S cursors' =>
        match List.find (matches_at word cursor) table with
        | Some maps =>
            match first_match_phonemes cursors' table word
                    (cursor + String.length maps.1) with
            | Some phonemes => Some (maps.2 :: phonemes)
            | None => None
            end
        | None => None
        end
    end
  else Some [].

(** The tokens of a word: the word as given, then the phonemes of its
    lower-cased spelling. *)
Definition word_tokens (table : list (string * string)) (word : string)
    : option (list string) :=
  match first_match_phonemes (String.length (Str.lower word)) table (Str.lower word) 0 with
  | Some phonemes => Some (word :: phonemes)
  | None => None
  end.

(** The string holds a space character (U+0020). *)
Definition has_space (s : string) : bool :=
  Str.existsb (fun c => Ascii.eqb c " ") s.

(** The characters of the words of a list, one more for each word. *)
Fixpoint text_size (l : list string) : nat :=
  match l with
  | [] => 0
  | w :: l' => S (String.length w) + text_size l'
  end.

(** [english_word_count / len(clean_words)] as a rational number. *)
Definition english_ratio (english_word_count : Z) (clean_words : list string) : Q :=
  Qmake english_word_count (Pos.of_nat (length clean_words)).

(** ** Binary64 numbers

    [english_word_count / len(clean_words)] is a [float], and so are [0.1],
    [0.5] and the probability the classifier returns.  They are values of
    [spec_float] at precision 53; the quotient of two [int]s is the exact
    quotient rounded to nearest, ties to even, as CPython computes it. *)

Module Float.

Definition prec : Z := 53.
Definition emax : Z := 1024.

(** The literal [0.1]: 0x1.999999999999ap-4. *)
Definition tenth : spec_float := S754_finite false 7205759403792794 (-56).

(** The literal [0.5]. *)
Definition half : spec_float := S754_finite false 4503599627370496 (-53).

(** [a / b] on [int]s. *)
Definition true_divide (a b : Z) : outcome spec_float :=
  if (b =? 0)%Z then Raised (ZeroDivisionError "division by zero")
  else if (a =? 0)%Z then Returned (S754_zero (b <? 0)%Z)
  else
    let '(mz, ez, lz) := SFdiv_core_binary prec emax (Z.abs a) 0 (Z.abs b) 0 in
    match binary_round_aux prec emax (xorb (a <? 0)%Z (b <? 0)%Z) mz ez lz with
    | S754_infinity _ =>
        Raised (OverflowError "integer division result too large for a float")
    | f => Returned f
    end.

(** [x > y] *)
Definition gt (x y : spec_float) : bool := SFltb y x.

End Float.

(** ** clean_json.py *)

(** The values of a record of the JSON data; a number stands for every
    value that is neither a string nor [null]. *)
Inductive json : Type :=
| JStr (s : string)
| JNum (n : Z)
| JNull.

(** A reference to a [dict] of the JSON data. *)
Definition loc : Type := nat.

(** [langid]'s [LanguageIdentifier]: its [classify] gives a language code
    and a probability. *)
Record LanguageIdentifier : Type := {
  classify : string -> string * spec_float
}.

(** The calls that leave the module. *)
Inductive event : Type :=
| NltkDownload
| FromModelstring
| Classify (text : string).

(** The [dict]s behind the references, and the calls made so far. *)
Record cleaner_state : Type := {
  store : loc -> gmap string json;
  trace : list event
}.

Definition emit (ev : event) : M cleaner_state unit :=
  modify (fun st => {| store := store st; trace := trace st ++ [ev] |}).

(** [utterance["transcript"] = text] *)
Definition set_transcript (utterance : loc) (text : string) : M cleaner_state unit :=
  modify (fun st =>
            {| store := <[utterance := <["transcript" := JStr text]> (store st utterance)]> (store st);
               trace := trace st |}).

(** [string.punctuation] *)
Definition string_punctuation : string :=
  "!" +:+ String "034"%char "#$%&'()*+,-./:;<=>?@[\]^_`{|}~".

(** [string.punctuation + "…’“–”‘°"]: of the seven characters added, the
    degree sign U+00B0 is the one below 256. *)
Definition punctuation_to_remove : string :=
  string_punctuation +:+ String "176"%char EmptyString.

Definition translation_tags : list string := ["@eng@"; "<ind:"; "<eng:"].

(** [utterance.get("transcript").lower()] *)
Definition transcript_lower (utterance : gmap string json) : outcome string :=
  match utterance !! "transcript" with
  | Some (JStr s) => Returned (Str.lower s)
  | Some (JNum _) => Raised (AttributeError "'int' object has no attribute 'lower'")
  | Some JNull | None =>
      Raised (AttributeError "'NoneType' object has no attribute 'lower'")
  end.

(** [for mark in punctuation: word = word.replace(mark, "")] *)
Fixpoint remove_marks (punctuation : string) (word : string) : string :=
  match punctuation with
  | EmptyString => word
  | String mark rest => remove_marks rest (Str.remove_char mark word)
  end.

(** [special_cases and word in special_cases] *)
Definition is_special_case (special_cases : option (list string)) (word : string) : bool :=
  match special_cases with
  | Some l => bool_decide (word ∈ l)
  | None => false
  end.

(** [word in english_words] *)
Definition in_english_words (english_words : option (gset string)) (word : string)
    : outcome bool :=
  match english_words with
  | Some s => Returned (bool_decide (word ∈ s))
  | None => Raised (TypeError "argument of type 'NoneType' is not iterable")
  end.

(** The [for word in words] loop of [clean_utterance]. *)
Fixpoint clean_words_loop (remove_english : bool) (english_words : option (gset string))
    (punctuation : option string) (special_cases : option (list string))
    (words : list string) (clean_words : list string) (english_word_count : Z)
    : outcome (list string * Z) :=
  match words with
  | [] => Returned (clean_words, english_word_count)
  | word :: rest =>
      let continue := clean_words_loop remove_english english_words punctuation
                        special_cases rest in
      if is_special_case special_cases word then
        continue clean_words english_word_count
      else if bool_decide (word ∈ translation_tags) then Returned ([], 0%Z)
      else if Str.search_digit word && negb (Str.isdigit word) then Returned ([], 0%Z)
      else
        let word := match punctuation with
                    | Some marks => remove_marks marks word
                    | None => word
                    end in
        if remove_english && (3 <? String.length word) then
          english ← in_english_words english_words word;
          if (english : bool) then continue clean_words (english_word_count + 1)%Z
          else continue (clean_words ++ [word]) english_word_count
        else continue (clean_words ++ [word]) english_word_count
  end.

Definition clean_utterance (utterance : gmap string json) (remove_english : bool)
    (english_words : option (gset string)) (punctuation : option string)
    (special_cases : option (list string)) : outcome (list string * Z) :=
  utterance_string ← transcript_lower utterance;
  clean_words_loop remove_english english_words punctuation special_cases
    (Str.split utterance_string) [] 0%Z.

(** [english_word_count / len(clean_words) > 0.1], behind its two guards. *)
Definition mostly_english (clean_words : list string) (english_word_count : Z)
    (remove_english : bool) : outcome bool :=
  if remove_english && (0 <? length clean_words) then
    ratio ← Float.true_divide english_word_count (Z.of_nat (length clean_words));
    Returned (Float.gt ratio Float.tenth)
  else Returned false.

Definition is_valid_utterance (clean_words : list string) (english_word_count : Z)
    (remove_english use_langid : bool) (langid_identifier : option LanguageIdentifier)
    : M cleaner_state bool :=
  let cleaned_transcription := Str.strip (Str.join " " clean_words) in
  if String.eqb cleaned_transcription "" then mret false
  else
    too_english ← lift (mostly_english clean_words english_word_count remove_english);
    if (too_english : bool) then mret false
    else if remove_english && use_langid then
      match langid_identifier with
      | None => raise (AttributeError "'NoneType' object has no attribute 'classify'")
      | Some identifier =>
          emit (Classify cleaned_transcription);;
          let '(lang, prob) := classify identifier cleaned_transcription in
          if String.eqb lang "en" && Float.gt prob Float.half then mret false
          else mret true
      end
    else mret true.

Section Cleaner.

(** The two collaborators: the word list of the nltk corpus (its download
    is taken to succeed) and the identifier built from langid's model. *)
Variable nltk_words : list string.
Variable langid_model : LanguageIdentifier.

Definition get_english_words : M cleaner_state (gset string) :=
  emit NltkDownload;;
  mret (list_to_set nltk_words).

Definition from_modelstring : M cleaner_state LanguageIdentifier :=
  emit FromModelstring;;
  mret langid_model.

(** The [for utterance in json_data] loop. *)
Fixpoint clean_loop (remove_english use_langid : bool) (english_words : gset string)
    (langid_identifier : option LanguageIdentifier)
    (json_data : list loc) (cleaned_data : list loc) : M cleaner_state (list loc) :=
  match json_data with
  | [] => mret cleaned_data
  | utterance :: rest =>
      record ← gets (fun st => store st utterance);
      cleaned ← lift (clean_utterance record remove_english (Some english_words)
                        (Some punctuation_to_remove) (Some ["<silence>"]));
      valid ← is_valid_utterance cleaned.1 cleaned.2 remove_english use_langid
                langid_identifier;
      if (valid : bool) then
        set_transcript utterance (Str.strip (Str.join " " cleaned.1));;
        clean_loop remove_english use_langid english_words langid_identifier
          rest (cleaned_data ++ [utterance])
      else
        clean_loop remove_english use_langid english_words langid_identifier
          rest cleaned_data
  end.

Definition clean_json_data (json_data : list loc) (remove_english use_langid : bool)
    : M cleaner_state (list loc) :=
  setup ← (if remove_english then
             english_words ← get_english_words;
             langid_identifier ← (if use_langid
                                  then identifier ← from_modelstring; mret (Some identifier)
                                  else mret None);
             mret (english_words, langid_identifier)
           else mret (∅, None));
  clean_loop remove_english use_langid setup.1 setup.2 json_data [].

End Cleaner.

(** Every record listed holds a transcript string, of fewer than 2^52
    characters. *)
Definition has_transcripts (st : cleaner_state) (json_data : list loc) : Prop :=
  forall a, a ∈ json_data ->
    exists transcript,
      store st a !! "transcript" = Some (JStr transcript)
      /\ (Z.of_nat (String.length transcript) < 2 ^ 52)%Z.

(** A batch of three records, for the examples. *)
Definition example_batch : cleaner_state :=
  {| store := fun a =>
       match a with
       | 0 => {[ "transcript" := JStr "Kia ora, <silence> e hoa!";
                 "speaker_id" := JStr "A"; "start_ms" := JNum 0; "stop_ms" := JNum 1500 ]}
       | 1 => {[ "transcript" := JStr "@eng@ hello"; "speaker_id" := JStr "B" ]}
       | 2 => {[ "transcript" := JStr "haere mai"; "audio_file_name" := JStr "a.wav" ]}
       | _ => ∅
       end;
     trace := [] |}.

Definition example_identifier : LanguageIdentifier :=
  {| classify := fun _ => ("mi", Float.half) |}.


(** ** Predicates the further properties are stated with *)

(** The string holds the character [c]. *)
Definition contains (c : ascii) (s : string) : bool :=
  Str.existsb (fun x => Ascii.eqb x c) s.

(** The string holds no line feed. *)
Definition single_line (s : string) : bool :=
  Str.forallb (fun c => negb (Ascii.eqb c "010")) s.

(** The string holds no whitespace character. *)
Definition no_whitespace (s : string) : bool :=
  Str.forallb (fun c => negb (Str.isspace c)) s.

(** The word holds none of the characters of [marks]. *)
Definition free_of (marks word : string) : bool :=
  Str.forallb (fun c => negb (contains c marks)) word.

(** [s[n:]] *)
Fixpoint slice_from (n : nat) (s : string) : string :=
  match n, s with
  | O, _ => s
  | S n', EmptyString => EmptyString
  | S n', String _ s' => slice_from n' s'
  end.

(** [s[:n]] *)
Fixpoint slice_to (n : nat) (s : string) : string :=
  match n, s with
  | O, _ => EmptyString
  | S n', EmptyString => EmptyString
  | S n', String c s' => String c (slice_to n' s')
  end.

(** The entry of a word in the lexicon: the word, then the phonemes of
    mappings of the table whose graphemes, put end to end, are the
    lower-cased word. *)
Definition spelled_by (table : list (string * string)) (token entry : string) : Prop :=
  exists used,
    Forall (fun maps => maps ∈ table) used
    /\ entry = Str.join " " (token :: used.*2) +:+ Str.nl
    /\ Str.join "" used.*1 = Str.lower token.

(** The word as [clean_utterance] keeps it: [punctuation], when given,
    removed. *)
Definition unmarked (punctuation : option string) (word : string) : string :=
  match punctuation with
  | Some marks => remove_marks marks word
  | None => word
  end.


(** A transcript as [clean_json_data] leaves it in a record it returns: not
    empty, with no whitespace at either end, in lower case, and with none of
    the marks it removes. *)
Definition clean_transcript (text : string) : Prop :=
  text <> EmptyString
  /\ Str.strip text = text
  /\ Str.lower text = text
  /\ free_of punctuation_to_remove text = true.

(** The calls [clean_json_data] makes before its loop. *)
Definition setup_calls (remove_english use_langid : bool) : list event :=
  (if remove_english then [NltkDownload] else [])
  ++ (if remove_english && use_langid then [FromModelstring] else []).

(** The record holds a transcript as [clean_json_data] leaves it. *)
Definition holds_clean_transcript (record : gmap string json) : Prop :=
  exists text, record !! "transcript" = Some (JStr text) /\ clean_transcript text.

(** The verdict of [clean_json_data] on a record: its transcript cleaned,
    then judged.  The calls of the verdict are left out. *)
Definition keeps (remove_english use_langid : bool) (english_words : gset string)
    (langid_identifier : option LanguageIdentifier) (record : gmap string json) : bool :=
  match clean_utterance record remove_english (Some english_words)
          (Some punctuation_to_remove) (Some ["<silence>"]) with
  | Returned cleaned =>
      match (is_valid_utterance cleaned.1 cleaned.2 remove_english use_langid
               langid_identifier {| store := fun _ => ∅; trace := [] |}).2 with
      | Returned valid => valid
      | _ => false
      end
  | _ => false
  end.

(** ** The reader of [textgrid_to_elan.py] *)

(** [s.split(" ")]: cut at every space, the empty fields kept. *)
Fixpoint split_space (s : string) : list string :=
  match s with
  | EmptyString => [EmptyString]
  | String c s' =>
      if Ascii.eqb c " "%char then EmptyString :: split_space s'
      else match split_space s' with
           | [] => [String c EmptyString]
           | field :: fields => String c field :: fields
           end
  end.

(** [f.readline()] on a stream just opened: the first line with its line
    end, or the empty string when there is none. *)
Definition readline (content : string) : string :=
  match Str.readlines content with
  | [] => EmptyString
  | line :: _ => line
  end.

(** [l[i]] on a list *)
Definition list_getitem {A : Type} (l : list A) (i : nat) : outcome A :=
  match l !! i with
  | Some x => Returned x
  | None => Raised (IndexError "list index out of range")
  end.

(** [get_first_wav], on the content of the file it opens. *)
Definition get_first_wav (wav_scp : string) : outcome string :=
  list_getitem (split_space (readline wav_scp)) 1.

(** ** The file filter of [resample_audio.py] *)

Module Path.

(** [s.rfind(c)] for a one-character [c]: the last index where it stands,
    or [-1]. *)
Fixpoint rfind (c : ascii) (s : string) : Z :=
  match s with
  | EmptyString => (-1)%Z
  | String x s' =>
      let r := rfind c s' in
      if (0 <=? r)%Z then (r + 1)%Z
      else if Ascii.eqb x c then 0%Z else (-1)%Z
  end.

(** The loop of [splitext] that skips the leading dots of the file name:
    [count] places are left before [dotIndex]; true when a character other
    than a dot stands at one of them. *)
Fixpoint past_leading_dots (p : string) (filenameIndex count : nat) : bool :=
  match count with
  | O => false
  | S count' =>
      if negb (String.eqb (String.substring filenameIndex 1 p) ".") then true
      else past_leading_dots p (S filenameIndex) count'
  end.

(** [os.path.splitext] of [posixpath]: the extension starts at the last dot
    of the last component, unless dots only come before it there. *)
Definition splitext (p : string) : string * string :=
  let sepIndex := rfind "/" p in
  let dotIndex := rfind "." p in
  if (sepIndex <? dotIndex)%Z
     && past_leading_dots p (Z.to_nat (sepIndex + 1))
          (Z.to_nat (dotIndex - (sepIndex + 1)))
  then (slice_to (Z.to_nat dotIndex) p, slice_from (Z.to_nat dotIndex) p)
  else (p, EmptyString).

End Path.

(** The loop of [find_files_by_extension]; the files come in the order the
    loop meets them. *)
Fixpoint find_files_loop (set_of_all_files : list string) (extensions : gset string)
    (res : list string) : list string :=
  match set_of_all_files with
  | [] => res
  | f :: rest =>
      let '(name, ext) := Path.splitext f in
      if bool_decide ("*" +:+ Str.lower ext ∈ extensions)
      then find_files_loop rest extensions (res ++ [f])
      else find_files_loop rest extensions res
  end.

Definition find_files_by_extension (set_of_all_files : list string)
    (extensions : gset string) : list string :=
  find_files_loop set_of_all_files extensions [].
(** * Facts and claims *)

(** ** The state monad *)

Lemma run_bind {S A B : Type} (m : M S A) (k : A -> M S B) (s : S) :
  (m ≫= k) s = match m s with
               | (s', Returned a) => k a s'
               | (s', Raised e) => (s', Raised e)
               | (s', OutOfFuel) => (s', OutOfFuel)
               end.
Proof. done. Qed.

Lemma run_modify {S B : Type} (f : S -> S) (k : unit -> M S B) (s : S) :
  (modify f ≫= k) s = k tt (f s).
Proof. done. Qed.

Lemma run_gets {S A B : Type} (f : S -> A) (k : A -> M S B) (s : S) :
  (gets f ≫= k) s = k (f s) s.
Proof. done. Qed.

Lemma run_lift {S A B : Type} (a : A) (k : A -> M S B) (s : S) :
  (lift (Returned a) ≫= k) s = k a s.
Proof. done. Qed.

Lemma run_ret {S A B : Type} (a : A) (k : A -> M S B) (s : S) :
  (mret a ≫= k) s = k a s.
Proof. done. Qed.

(** ** Facts about the string functions *)

Lemma index_ge (n m : nat) (s1 s2 : string) :
  String.index n s1 s2 = Some m -> n <= m.
Proof.
  revert n m. induction s2 as [|b s2 IH]; intros n m.
  - destruct n; simpl; [|discriminate]. destruct s1; [|discriminate]. intros [= <-]. lia.
  - destruct n as [|n]; simpl.
    + intros _. lia.
    + destruct (String.index n s1 s2) as [k|] eqn:E; [|discriminate].
      intros [= <-]. apply IH in E. lia.
Qed.

(** [find] answers [current_index] exactly when the grapheme is read at
    the cursor. *)
Lemma find_at_cursor (s g : string) (i : nat) :
  i <= String.length s ->
  Str.find s g i = Z.of_nat i <-> String.substring i (String.length g) s = g.
Proof.
  intros Hi. unfold Str.find.
  destruct (String.index i g s) as [m|] eqn:E.
  - split.
    + intros Hm. apply Nat2Z.inj in Hm. subst m. eapply index_correct1; eauto.
    + intros Hs. f_equal.
      pose proof (index_ge _ _ _ _ E) as Hge.
      destruct (Nat.eq_dec m i) as [->|Hne]; [done|].
      exfalso. eapply (index_correct2 _ _ _ _ E i); eauto. lia.
  - split; [lia|]. intros Hs. exfalso.
    destruct g as [|a g].
    + apply index_correct4 in E. lia.
    + eapply (index_correct3 i i _ _ E); eauto; discriminate.
Qed.

Lemma accepts_spec (s : string) (i : nat) (maps : string * string) :
  i <= String.length s ->
  accepts s i maps = true <-> String.substring i (String.length maps.1) s = maps.1.
Proof.
  intros Hi. unfold accepts. rewrite Z.eqb_eq. by apply find_at_cursor.
Qed.

(** ** Facts about the sort of [parse_configs] *)

Section SortReverse.
Context {A : Type} (key : A -> nat).

Lemma insert_reverse_Permutation (x : A) (l : list A) :
  insert_reverse key x l ≡ₚ x :: l.
Proof.
  induction l as [|y l IH]; simpl; [done|].
  destruct (key x <? key y); [|done].
  rewrite IH. apply Permutation_swap.
Qed.

Lemma sort_reverse_Permutation (l : list A) : sort_reverse key l ≡ₚ l.
Proof.
  induction l as [|x l IH]; simpl; [done|].
  by rewrite insert_reverse_Permutation, IH.
Qed.

Lemma insert_reverse_decreasing (x : A) (l : list A) :
  decreasing key l -> decreasing key (insert_reverse key x l).
Proof.
  unfold decreasing. induction 1 as [|y l Hl IH Hy]; simpl.
  - repeat constructor.
  - destruct (key x <? key y) eqn:E.
    + apply Nat.ltb_lt in E. constructor; [done|].
      rewrite insert_reverse_Permutation. constructor; [lia|done].
    + apply Nat.ltb_ge in E. constructor; [by constructor|].
      constructor; [done|]. rewrite Forall_forall in Hy |- *.
      intros z Hz. specialize (Hy z Hz). simpl in Hy. lia.
Qed.

Lemma sort_reverse_decreasing (l : list A) : decreasing key (sort_reverse key l).
Proof.
  induction l as [|x l IH]; simpl; [constructor|].
  by apply insert_reverse_decreasing.
Qed.

(** Stability: the elements of one key keep the order they had. *)
Lemma insert_reverse_stable (k : nat) (x : A) (l : list A) :
  filter (fun y => key y = k) (insert_reverse key x l)
  = filter (fun y => key y = k) (x :: l).
Proof.
  induction l as [|y l IH]; simpl; [done|].
  destruct (key x <? key y) eqn:E; [|done].
  apply Nat.ltb_lt in E.
  rewrite (filter_cons _ y), IH, !filter_cons.
  repeat case_decide; try done; lia.
Qed.

Lemma sort_reverse_stable (k : nat) (l : list A) :
  filter (fun y => key y = k) (sort_reverse key l) = filter (fun y => key y = k) l.
Proof.
  induction l as [|x l IH]; simpl; [done|].
  by rewrite insert_reverse_stable, !filter_cons, IH.
Qed.

(** In a decreasing list a longer key stands before a shorter one. *)
Lemma decreasing_lookup (l : list A) (i j : nat) (a b : A) :
  decreasing key l -> l !! i = Some a -> l !! j = Some b -> key b < key a -> i < j.
Proof.
  unfold decreasing. intros Hl. revert i j.
  induction Hl as [|x l Hl IH Hx]; intros i j Hi Hj Hlt; [done|].
  destruct i as [|i], j as [|j]; simpl in *; simplify_eq; try lia.
  - rewrite Forall_forall in Hx.
    assert (key a <= key b)
      by (apply Hx, list_elem_of_In; eapply list_elem_of_lookup_2; eauto).
    lia.
  - apply ->Nat.succ_lt_mono. eauto.
Qed.

End SortReverse.

(** ** Facts about the config parser *)

Lemma append_nonempty_r (s : string) (c : ascii) (t : string) :
  s +:+ String c t <> EmptyString.
Proof. by destruct s. Qed.

Lemma append_cons (c : ascii) (s t : string) : String c s +:+ t = String c (s +:+ t).
Proof. done. Qed.

Lemma append_nil_l (t : string) : EmptyString +:+ t = t.
Proof. done. Qed.

Lemma append_assoc (s t u : string) : (s +:+ t) +:+ u = s +:+ t +:+ u.
Proof. induction s as [|c s IH]; [done|]. by rewrite !append_cons, IH. Qed.

Lemma readlines_aux_nonempty (s cur : string) :
  Forall (fun line => line <> EmptyString) (Str.readlines_aux s cur).
Proof.
  revert cur. induction s as [|c s IH]; intros cur; simpl.
  - destruct cur; repeat constructor. discriminate.
  - destruct (Ascii.eqb c "010"); [|apply IH].
    constructor; [|apply IH]. apply append_nonempty_r.
Qed.

Lemma readlines_nonempty (content : string) :
  Forall (fun line => line <> EmptyString) (Str.readlines content).
Proof. apply readlines_aux_nonempty. Qed.

Lemma getitem_0 (c : ascii) (s : string) :
  Str.getitem (String c s) 0 = Returned (String c EmptyString).
Proof. done. Qed.

(** The loop of [parse_configs] returns on the lines [readlines] gives:
    [line[0]] exists on each. *)
Lemma collect_mappings_returns (config_lines : list string) :
  Forall (fun line => line <> EmptyString) config_lines ->
  exists sound_mappings, collect_mappings config_lines = Returned sound_mappings.
Proof.
  induction 1 as [|line rest Hline _ [tl IH]]; simpl; [by eexists|].
  destruct line as [|c line]; [done|]. rewrite getitem_0. simpl.
  destruct (Ascii.eqb c "#"); [by eexists|].
  destruct (List.filter _ _) as [|m0 [|m1 ?]]; try by eexists.
  rewrite IH. by eexists.
Qed.

Lemma filter_head_true {A : Type} (f : A -> bool) (l : list A) (x : A) (l' : list A) :
  List.filter f l = x :: l' -> f x = true.
Proof.
  intros H. assert (In x (List.filter f l)) as Hin by (rewrite H; by left).
  by apply filter_In in Hin as [_ ?].
Qed.

(** No grapheme of the table is empty: [filter(None, ...)] drops the empty
    pieces of a line. *)
Lemma collect_mappings_graphemes (config_lines : list string) (sound_mappings : list (string * string)) :
  collect_mappings config_lines = Returned sound_mappings ->
  Forall (fun maps => maps.1 <> EmptyString) sound_mappings.
Proof.
  revert sound_mappings. induction config_lines as [|line rest IH]; intros sm; simpl.
  - intros [= <-]. constructor.
  - destruct (Str.getitem line 0) as [c| |]; simpl; try discriminate.
    destruct (String.eqb c "#"); [apply IH|].
    destruct (List.filter _ _) as [|m0 [|m1 ?]] eqn:E; try apply IH.
    destruct (collect_mappings rest) as [tl| |]; simpl; try discriminate.
    intros [= <-]. constructor; [|by apply IH].
    apply filter_head_true in E. simpl. by destruct m0.
Qed.

Lemma parse_configs_returns (config_file : string) :
  exists collected,
    collect_mappings (Str.readlines config_file) = Returned collected
    /\ parse_configs config_file = Returned (sort_reverse grapheme_length collected).
Proof.
  destruct (collect_mappings_returns _ (readlines_nonempty config_file)) as [sm Hsm].
  exists sm. split; [done|]. unfold parse_configs. by rewrite Hsm.
Qed.

Lemma parse_configs_graphemes (config_file : string) (sound_mappings : list (string * string)) :
  parse_configs config_file = Returned sound_mappings ->
  Forall (fun maps => maps.1 <> EmptyString) sound_mappings.
Proof.
  destruct (parse_configs_returns config_file) as (sm & Hsm & ->).
  intros [= <-]. apply collect_mappings_graphemes in Hsm.
  by rewrite sort_reverse_Permutation.
Qed.

(** ** Facts about the segmenter *)

Lemma find_first {A : Type} (f : A -> bool) (l : list A) (x : A) :
  List.find f l = Some x ->
  exists before after,
    l = before ++ x :: after /\ f x = true /\ Forall (fun y => f y = false) before.
Proof.
  induction l as [|y l IH]; simpl; [done|].
  destruct (f y) eqn:E.
  - intros [= ->]. exists [], l. by repeat split.
  - intros Hx. destruct (IH Hx) as (before & after & -> & Hfx & Hb).
    exists (y :: before), after. repeat split; [done|]. by constructor.
Qed.

Lemma first_match_Some (sound_mappings : list (string * string))
    (token_lower : string) (current_index : nat) (maps : string * string) :
  current_index <= String.length token_lower ->
  first_match sound_mappings token_lower current_index = Some maps ->
  exists before after,
    sound_mappings = before ++ maps :: after
    /\ occurs_at token_lower current_index maps.1
    /\ Forall (fun m => ~ occurs_at token_lower current_index m.1) before.
Proof.
  intros Hi Hf. apply find_first in Hf as (before & after & -> & Hm & Hb).
  exists before, after. split; [done|]. split.
  - by apply accepts_spec.
  - eapply List.Forall_impl; [|exact Hb]. intros m Hfalse Hocc.
    apply accepts_spec in Hocc; [|done]. congruence.
Qed.

Lemma first_match_None (sound_mappings : list (string * string))
    (token_lower : string) (current_index : nat) :
  current_index <= String.length token_lower ->
  first_match sound_mappings token_lower current_index = None <->
  forall maps, maps ∈ sound_mappings -> ~ occurs_at token_lower current_index maps.1.
Proof.
  intros Hi. unfold first_match. split.
  - intros Hn maps Hin Hocc. apply list_elem_of_In in Hin.
    apply (find_none _ _ Hn) in Hin. apply accepts_spec in Hocc; [|done]. congruence.
  - intros Hall. destruct (List.find _ _) as [maps|] eqn:E; [|done].
    apply find_some in E as [Hin Hacc]. exfalso.
    apply (Hall maps); [by apply list_elem_of_In|]. by apply accepts_spec.
Qed.

Lemma segment_unfold (fuel : nat) (sound_mappings : list (string * string))
    (token_lower : string) (current_index : nat) (res : list string) :
  current_index < String.length token_lower ->
  segment (S fuel) sound_mappings token_lower current_index res =
  match first_match sound_mappings token_lower current_index with
  | Some maps =>
      segment fuel sound_mappings token_lower
        (current_index + String.length maps.1) (res ++ [maps.2])
  | None =>
      c ← lift (Str.getitem token_lower current_index);
      oov_add c;;
      segment fuel sound_mappings token_lower
        (current_index + 1) (res ++ ["(" +:+ c +:+ ")"])
  end.
Proof.
  intros Hlt. apply Nat.ltb_lt in Hlt. simpl. by rewrite Hlt.
Qed.

Lemma segment_end (fuel : nat) (sound_mappings : list (string * string))
    (token_lower : string) (current_index : nat) (res : list string) :
  String.length token_lower <= current_index ->
  segment fuel sound_mappings token_lower current_index res = mret res.
Proof.
  intros Hge. apply Nat.ltb_ge in Hge. destruct fuel; simpl; by rewrite Hge.
Qed.

Lemma get_lt (s : string) (i : nat) :
  i < String.length s -> exists c, String.get i s = Some c.
Proof.
  revert i. induction s as [|a s IH]; intros i; simpl; [lia|].
  destruct i as [|i]; [by eexists|]. intros Hi. apply IH. lia.
Qed.

(** With [oov_characters] a [dict], a cursor that no mapping accepts ends
    the run: [.add] raises, and nothing is recorded. *)
Lemma segment_unmatched_raises (fuel : nat) (sound_mappings : list (string * string))
    (token_lower : string) (current_index : nat) (res : list string)
    (st : lexicon_run) (d : gmap string string) :
  current_index < String.length token_lower ->
  first_match sound_mappings token_lower current_index = None ->
  oov_characters st = PyDict d ->
  segment (S fuel) sound_mappings token_lower current_index res st
  = (st, Raised (AttributeError "'dict' object has no attribute 'add'")).
Proof.
  intros Hlt Hnone Hoov. rewrite segment_unfold, Hnone by done.
  destruct (get_lt _ _ Hlt) as [c Hc].
  unfold mbind, M_bind, lift, Str.getitem, oov_add. by rewrite Hc, Hoov.
Qed.

(** [len(token_lower) - current_index] passes are enough when no grapheme
    is empty. *)
Lemma segment_fuel (sound_mappings : list (string * string)) (token_lower : string) :
  Forall (fun maps => maps.1 <> EmptyString) sound_mappings ->
  forall fuel current_index res st,
    String.length token_lower - current_index <= fuel ->
    (segment fuel sound_mappings token_lower current_index res st).2 <> OutOfFuel.
Proof.
  intros Hne. induction fuel as [|fuel IH]; intros i res st Hfuel.
  - rewrite segment_end by lia. done.
  - destruct (Nat.lt_ge_cases i (String.length token_lower)) as [Hlt|Hge];
      [|by rewrite segment_end].
    rewrite segment_unfold by done.
    destruct (first_match _ _ _) as [maps|] eqn:E.
    + apply IH. apply find_some in E as [Hin _].
      rewrite Forall_forall in Hne. apply Hne in Hin.
      destruct (maps.1); [done|]. simpl. lia.
    + destruct (get_lt _ _ Hlt) as [c Hc].
      unfold mbind, M_bind, lift, Str.getitem, oov_add. rewrite Hc.
      destruct (add _ _) eqn:Ea; try done.
      * apply IH. lia.
      * by destruct (oov_characters st).
Qed.

Lemma write_entries_fuel (sound_mappings : list (string * string)) (input_tokens : list string) :
  Forall (fun maps => maps.1 <> EmptyString) sound_mappings ->
  forall st, (write_entries sound_mappings input_tokens st).2 <> OutOfFuel.
Proof.
  intros Hne. induction input_tokens as [|token rest IH]; intros st; simpl; [done|].
  unfold mbind at 1, M_bind at 1.
  pose proof (segment_fuel sound_mappings (Str.lower token) Hne
                (String.length (Str.lower token)) 0 [token] st) as Hseg.
  destruct (segment _ _ _ _ _ st) as [st' [res|e|]]; simpl in *; try done.
  - apply IH.
  - exfalso. apply Hseg; [lia|done].
Qed.

Lemma report_returns (characters : list string) (st : lexicon_run) :
  (report characters st).2 = Returned tt.
Proof.
  revert st. induction characters as [|c rest IH]; intros st; simpl; [done|].
  apply IH.
Qed.

Lemma report_output (characters : list string) (st : lexicon_run) :
  output_file (report characters st).1 = output_file st.
Proof.
  revert st. induction characters as [|c rest IH]; intros st; simpl; [done|].
  unfold print_stderr. rewrite run_modify. by rewrite IH.
Qed.

(** The fuel of the model is never used up: a run of [generate_dictionary]
    returns or raises. *)
Lemma generate_dictionary_terminates (input_file config_file : string) :
  (generate_dictionary input_file config_file).2 <> OutOfFuel.
Proof.
  unfold generate_dictionary.
  destruct (parse_configs_returns config_file) as (collected & _ & Hp).
  pose proof (parse_configs_graphemes _ _ Hp) as Hne. rewrite Hp.
  unfold write. rewrite run_lift, !run_modify, run_bind.
  pose proof (write_entries_fuel _ (parse_input input_file) Hne) as Hw.
  match goal with |- context [write_entries ?sm ?t ?st] =>
    specialize (Hw st); destruct (write_entries sm t st) as [st' [[]|e|]] end;
    simpl in *; try done.
  by rewrite run_gets, report_returns.
Qed.

(** The inner loop writes nothing to the lexicon and only appends to [res]. *)
Lemma segment_output (fuel : nat) (sound_mappings : list (string * string))
    (token_lower : string) (current_index : nat) (res : list string) (st : lexicon_run) :
  output_file (segment fuel sound_mappings token_lower current_index res st).1
  = output_file st
  /\ forall res',
      (segment fuel sound_mappings token_lower current_index res st).2 = Returned res' ->
      exists phonemes, res' = res ++ phonemes.
Proof.
  revert current_index res st. induction fuel as [|fuel IH]; intros i res st.
  - simpl. destruct (i <? String.length token_lower); simpl; [done|].
    split; [done|]. intros res' [= <-]. exists []. by rewrite app_nil_r.
  - destruct (Nat.lt_ge_cases i (String.length token_lower)) as [Hlt|Hge].
    + rewrite segment_unfold by done.
      destruct (first_match _ _ _) as [maps|].
      * destruct (IH (i + String.length maps.1) (res ++ [maps.2]) st) as [Hout Hres].
        split; [done|]. intros res' Hr. destruct (Hres res' Hr) as [more ->].
        exists (maps.2 :: more). by rewrite <- app_assoc.
      * rewrite run_bind. unfold lift. destruct (Str.getitem _ _) as [c| |]; try done.
        rewrite run_bind. unfold oov_add.
        destruct (add _ _) as [o| |]; try done.
        match goal with |- context [segment fuel _ _ ?j ?r ?s] =>
          destruct (IH j r s) as [Hout Hres] end.
        split; [exact Hout|]. intros res' Hr. destruct (Hres res' Hr) as [more ->].
        eexists (_ :: more). by rewrite <- app_assoc.
    + rewrite segment_end by done. split; [done|].
      intros res' [= <-]. exists []. by rewrite app_nil_r.
Qed.

(** A run of the outer loop that returns has written one entry for each
    token, in the order of the tokens, each starting with its token. *)
Lemma write_entries_output (sound_mappings : list (string * string))
    (input_tokens : list string) (st st' : lexicon_run) :
  write_entries sound_mappings input_tokens st = (st', Returned tt) ->
  exists entries,
    output_file st' = output_file st ++ entries
    /\ Forall2 (fun token entry =>
                  exists phonemes, entry = Str.join " " (token :: phonemes) +:+ Str.nl)
         input_tokens entries.
Proof.
  revert st. induction input_tokens as [|token rest IH]; intros st; simpl.
  - intros [= <-]. exists []. by rewrite app_nil_r.
  - rewrite run_bind.
    destruct (segment_output (String.length (Str.lower token)) sound_mappings
                (Str.lower token) 0 [token] st) as [Hout Hres].
    destruct (segment _ _ _ _ _ st) as [st1 [res| |]]; try done.
    destruct (Hres res eq_refl) as [phonemes ->].
    unfold write. rewrite run_modify. intros Hrun.
    apply IH in Hrun as (entries & -> & Hall). simpl in *.
    eexists (_ :: entries). rewrite Hout, <- app_assoc. split; [done|].
    constructor; [by exists phonemes|done].
Qed.

(** The run that returns has written the lexicon of the specification: the
    two header lines, then one entry for each word. *)
Lemma generate_dictionary_returned (input_file config_file : string) (st : lexicon_run) :
  generate_dictionary input_file config_file = (st, Returned tt) ->
  exists entries,
    output_file st = ["!SIL sil" +:+ Str.nl; "<UNK> spn" +:+ Str.nl] ++ entries
    /\ Forall2 (fun token entry =>
                  exists phonemes, entry = Str.join " " (token :: phonemes) +:+ Str.nl)
         (parse_input input_file) entries.
Proof.
  unfold generate_dictionary.
  destruct (parse_configs_returns config_file) as (collected & _ & ->).
  unfold write. rewrite run_lift, !run_modify, run_bind.
  destruct (write_entries _ _ _) as [st1 [[]| |]] eqn:Hw; try done.
  apply write_entries_output in Hw as (entries & Hout & Hall).
  rewrite run_gets. intros Hrep. exists entries. split; [|done].
  apply (f_equal fst) in Hrep. simpl in Hrep.
  by rewrite <- Hrep, report_output.
Qed.

(** With a [set] for [oov_characters] the same passes go on: the word
    "xyz" gets its three markers, and the three characters are recorded. *)
Lemma write_entries_with_set :
  write_entries [] ["xyz"]
    {| output_file := []; oov_characters := PySet ∅; stderr := [] |}
  = ({| output_file := ["xyz (x) (y) (z)" +:+ Str.nl];
        oov_characters := PySet {[ "x"; "y"; "z" ]};
        stderr := [] |}, Returned tt).
Proof. vm_compute. reflexivity. Qed.

(** ** The claims on the dictionary builder *)

(** C1 (the code raises where the claim promises a marker).  On the word
    "xyz" and an empty table the first unmatched character reaches
    [oov_characters.add], and [oov_characters] is the [dict] that [{}]
    denotes: the run ends in [AttributeError] with the two header lines
    written, no entry for "xyz" and no character recorded. *)
Theorem C1_unmapped_character_raises :
  generate_dictionary (lines ["xyz"]) EmptyString
  = ({| output_file := ["!SIL sil" +:+ Str.nl; "<UNK> spn" +:+ Str.nl];
        oov_characters := PyDict ∅;
        stderr := [] |},
     Raised (AttributeError "'dict' object has no attribute 'add'")).
Proof. vm_compute. reflexivity. Qed.

(** C2 (the code stops short of the claim).  On the words "go" and "stop!"
    with a table for g, o, s, t, p the lexicon holds the two header lines
    and the entry of "go" only: the "!" of the second word raises (the
    defect of C1), so the output has 3 entries where the claim counts
    2 + 2. *)
Theorem C2_lexicon_cut_short :
  generate_dictionary (lines ["go"; "stop!"]) (lines ["g G"; "o O"; "s S"; "t T"; "p P"])
  = ({| output_file := ["!SIL sil" +:+ Str.nl; "<UNK> spn" +:+ Str.nl; "go G O" +:+ Str.nl];
        oov_characters := PyDict ∅;
        stderr := [] |},
     Raised (AttributeError "'dict' object has no attribute 'add'")).
Proof. vm_compute. reflexivity. Qed.

(** In a table sorted by [parse_configs] the mapping the scan stops at has
    the longest of the graphemes read at the cursor. *)
Lemma first_match_longest (sound_mappings : list (string * string))
    (token_lower : string) (current_index : nat) (maps other : string * string) :
  current_index <= String.length token_lower ->
  decreasing grapheme_length sound_mappings ->
  first_match sound_mappings token_lower current_index = Some maps ->
  other ∈ sound_mappings ->
  occurs_at token_lower current_index other.1 ->
  String.length other.1 <= String.length maps.1.
Proof.
  intros Hi Hdec Hf Hin Hocc.
  apply first_match_Some in Hf as (before & after & -> & _ & Hb); [|done].
  apply StronglySorted_app in Hdec as (_ & _ & Hdec).
  apply StronglySorted_cons in Hdec as [Hafter _].
  rewrite elem_of_app, elem_of_cons in Hin. destruct Hin as [Hin|[->|Hin]].
  - rewrite List.Forall_forall in Hb. exfalso.
    by apply (Hb other); [apply list_elem_of_In|].
  - done.
  - rewrite List.Forall_forall in Hafter. by apply Hafter, list_elem_of_In.
Qed.

Lemma substring_length (i n : nat) (s : string) :
  String.length (String.substring i n s) = Nat.min n (String.length s - i).
Proof.
  revert i n. induction s as [|c s IH]; intros [|i] [|n]; simpl; try done;
    rewrite IH; lia.
Qed.

(** The test of the code, [find] answering the cursor, is the match of
    the specification. *)
Lemma accepts_matches_at (token_lower : string) (current_index : nat)
    (maps : string * string) :
  current_index <= String.length token_lower ->
  accepts token_lower current_index maps = matches_at token_lower current_index maps.
Proof.
  intros Hi. unfold matches_at.
  destruct (String.eqb _ _) eqn:E.
  - apply String.eqb_eq in E. by apply accepts_spec.
  - apply String.eqb_neq in E. apply not_true_is_false.
    intros Hacc. by apply accepts_spec in Hacc.
Qed.

Lemma first_match_matches_at (sound_mappings : list (string * string))
    (token_lower : string) (current_index : nat) :
  current_index <= String.length token_lower ->
  first_match sound_mappings token_lower current_index
  = List.find (matches_at token_lower current_index) sound_mappings.
Proof.
  intros Hi. unfold first_match.
  induction sound_mappings as [|maps rest IH]; simpl; [done|].
  by rewrite accepts_matches_at, IH.
Qed.

(** The loop over the cursors does what the specification says, with no
    effect on the run, whenever every cursor it meets has a match. *)
Lemma segment_first_match_phonemes (fuel : nat) (sound_mappings : list (string * string))
    (token_lower : string) (current_index : nat) (res phonemes : list string)
    (st : lexicon_run) :
  current_index <= String.length token_lower ->
  first_match_phonemes fuel sound_mappings token_lower current_index = Some phonemes ->
  segment fuel sound_mappings token_lower current_index res st
  = (st, Returned (res ++ phonemes)).
Proof.
  revert current_index res phonemes.
  induction fuel as [|fuel IH]; intros i res phonemes Hi; simpl.
  - destruct (i <? String.length token_lower); [done|].
    intros [= <-]. by rewrite app_nil_r.
  - destruct (i <? String.length token_lower) eqn:Hlt;
      [|intros [= <-]; by rewrite app_nil_r].
    rewrite first_match_matches_at by done.
    destruct (List.find _ _) as [maps|] eqn:Hfind; [|done].
    apply find_some in Hfind as [_ Hm]. apply String.eqb_eq in Hm.
    pose proof (substring_length i (String.length maps.1) token_lower) as Hlen.
    rewrite Hm in Hlen.
    destruct (first_match_phonemes _ _ _ _) as [rest|] eqn:Hrest; [|done].
    intros [= <-]. rewrite (IH _ (res ++ [maps.2]) rest); [|lia|done].
    by rewrite <- app_assoc.
Qed.

(** C3.  At a cursor inside the lower-cased word, the mapping the segmenter
    accepts is the first of the table, in table order, whose grapheme is read
    at the cursor; the pass appends its phoneme and moves the cursor by the
    grapheme's length; no mapping is accepted only when none is read there;
    in a table sorted by decreasing grapheme length the accepted grapheme is
    a longest one.  So the entry the word loop writes for a word, in any
    case of its letters, is the word followed by the phonemes the
    specification gives for its lower-cased spelling, whenever every cursor
    has a match.  The table th/T, e/E, t/t, h/h gives "the T E". *)
Theorem C3_first_match_in_table_order
    (sound_mappings : list (string * string)) (token : string)
    (current_index fuel : nat) (res : list string) (st : lexicon_run) :
  current_index < String.length (Str.lower token) ->
  (first_match sound_mappings (Str.lower token) current_index = None <->
   forall maps, maps ∈ sound_mappings ->
                ~ occurs_at (Str.lower token) current_index maps.1)
  /\ (forall maps,
        first_match sound_mappings (Str.lower token) current_index = Some maps ->
        (exists before after,
            sound_mappings = before ++ maps :: after
            /\ occurs_at (Str.lower token) current_index maps.1
            /\ Forall (fun m => ~ occurs_at (Str.lower token) current_index m.1) before)
        /\ segment (S fuel) sound_mappings (Str.lower token) current_index res st
           = segment fuel sound_mappings (Str.lower token)
               (current_index + String.length maps.1) (res ++ [maps.2]) st
        /\ (decreasing grapheme_length sound_mappings ->
            forall other, other ∈ sound_mappings ->
                          occurs_at (Str.lower token) current_index other.1 ->
                          String.length other.1 <= String.length maps.1))
  /\ (forall tokens input_tokens,
        word_tokens sound_mappings token = Some tokens ->
        write_entries sound_mappings (token :: input_tokens) st
        = write_entries sound_mappings input_tokens
            {| output_file := output_file st ++ [Str.join " " tokens +:+ Str.nl];
               oov_characters := oov_characters st;
               stderr := stderr st |})
  /\ generate_dictionary (lines ["the"]) (lines ["th T"; "e E"; "t t"; "h h"])
     = ({| output_file := ["!SIL sil" +:+ Str.nl; "<UNK> spn" +:+ Str.nl;
                           "the T E" +:+ Str.nl];
           oov_characters := PyDict ∅;
           stderr := [] |}, Returned tt).
Proof.
  intros Hlt. split; [apply first_match_None; lia|]. split; [|split].
  - intros maps Hf. split; [apply first_match_Some; [lia|done]|]. split.
    + by rewrite segment_unfold, Hf.
    + intros Hdec other Hin Hocc.
      by apply (first_match_longest sound_mappings (Str.lower token) current_index);
        [lia|..].
  - intros tokens input_tokens. unfold word_tokens.
    destruct (first_match_phonemes _ _ _ _) as [phonemes|] eqn:Hspec; [|done].
    intros [= <-]. cbn [write_entries]. rewrite run_bind.
    rewrite (segment_first_match_phonemes _ _ _ _ _ phonemes) by (done || lia).
    unfold write. by rewrite run_modify.
  - vm_compute. reflexivity.
Qed.

Lemma C3_witness :
  0 < String.length (Str.lower "The")
  /\ first_match [("th", "T"); ("e", "E"); ("t", "t"); ("h", "h")] (Str.lower "The") 0
     = Some ("th", "T")
  /\ segment 3 [("th", "T"); ("e", "E"); ("t", "t"); ("h", "h")] (Str.lower "The") 0
       ["The"] lexicon_start
     = segment 2 [("th", "T"); ("e", "E"); ("t", "t"); ("h", "h")] (Str.lower "The") 2
         ["The"; "T"] lexicon_start
  /\ word_tokens [("th", "T"); ("e", "E"); ("t", "t"); ("h", "h")] "The"
     = Some ["The"; "T"; "E"]
  /\ write_entries [("th", "T"); ("e", "E"); ("t", "t"); ("h", "h")] ["The"] lexicon_start
     = ({| output_file := ["The T E" +:+ Str.nl];
           oov_characters := PyDict ∅;
           stderr := [] |}, Returned tt).
Proof.
  assert (0 < String.length (Str.lower "The")) as Hlt by (vm_compute; lia).
  split; [exact Hlt|]. split; [reflexivity|].
  destruct (C3_first_match_in_table_order
              [("th", "T"); ("e", "E"); ("t", "t"); ("h", "h")] "The" 0 2 ["The"]
              lexicon_start Hlt) as (_ & Hstep & Hword & _).
  destruct (Hstep ("th", "T") eq_refl) as (_ & Heq & _).
  split; [exact Heq|]. split; [reflexivity|].
  exact (Hword ["The"; "T"; "E"] [] eq_refl).
Defined.

(** C4.  The table [parse_configs] returns, on any config text, is the
    mappings it collected, sorted by decreasing grapheme length: a mapping
    with a longer grapheme stands at a smaller index than one with a shorter
    grapheme, and the mappings of one grapheme length are in the order they
    were appended. *)
Theorem C4_table_sorted_longest_first (config_file : string) :
  exists collected table,
    collect_mappings (Str.readlines config_file) = Returned collected
    /\ parse_configs config_file = Returned table
    /\ table ≡ₚ collected
    /\ (forall i j m1 m2,
          table !! i = Some m1 -> table !! j = Some m2 ->
          String.length m2.1 < String.length m1.1 -> i < j)
    /\ (forall k,
          filter (fun maps => String.length maps.1 = k) table
          = filter (fun maps => String.length maps.1 = k) collected).
Proof.
  destruct (parse_configs_returns config_file) as (collected & Hc & Hp).
  exists collected, (sort_reverse grapheme_length collected).
  split; [done|]. split; [done|]. split; [apply sort_reverse_Permutation|]. split.
  - intros i j m1 m2 Hi Hj Hlt.
    eapply (decreasing_lookup grapheme_length); eauto using sort_reverse_decreasing.
  - intros k. apply (sort_reverse_stable grapheme_length).
Qed.

(** ** Facts about [strip] and [split(' ', 1)] *)

Lemma lstrip_length (s : string) : String.length (Str.lstrip s) <= String.length s.
Proof.
  induction s as [|c s IH]; simpl; [done|].
  destruct (Str.isspace c); simpl; lia.
Qed.

Lemma lstrip_fixed (c : ascii) (s : string) :
  Str.lstrip (String c s) = String c s -> Str.isspace c = false.
Proof.
  simpl. destruct (Str.isspace c); [|done].
  intros H. pose proof (lstrip_length s) as Hl. rewrite H in Hl. simpl in Hl. lia.
Qed.


Lemma rstrip_append (s t : string) :
  Str.rstrip (s +:+ t) =
  match Str.rstrip t with
  | EmptyString => Str.rstrip s
  | String a r => s +:+ String a r
  end.
Proof.
  induction s as [|c s IH]; [rewrite append_nil_l; by destruct (Str.rstrip t)|].
  rewrite append_cons. simpl. rewrite IH.
  destruct (Str.rstrip t) as [|a r]; [done|].
  rewrite append_cons. by destruct s.
Qed.




Lemma collect_mappings_cons (c : ascii) (line : string) (rest : list string) :
  collect_mappings (String c line :: rest) =
  if Ascii.eqb c "#" then collect_mappings rest
  else match List.filter Str.truthy (Str.split_space1 (Str.strip (String c line))) with
       | m0 :: m1 :: _ =>
           sound_mappings ← collect_mappings rest;
           Returned ((m0, m1) :: sound_mappings)
       | _ => collect_mappings rest
       end.
Proof. simpl. by destruct (Ascii.eqb c "#"). Qed.





(** ** Facts about the binary64 quotient

    [SFdiv_core_binary] and [binary_round_aux] are followed on the quotient
    of two integers below 2^53: the quotient handed to the rounding has 53 or
    54 bits, and the rounded result is compared with [0.1]. *)

Section Binary64Facts.
Local Open Scope Z_scope.

Lemma digits2_pos_size (p : positive) : digits2_pos p = Pos.size p.
Proof. induction p; simpl; congruence. Qed.

Lemma Zdigits2_log2 (x : Z) : 0 < x -> Zdigits2 x = Z.log2 x + 1.
Proof.
  destruct x as [|p|p]; try lia. intros _. simpl. rewrite digits2_pos_size.
  destruct p; simpl; lia.
Qed.

Lemma Zdigits2_bounds (x : Z) :
  0 < x -> 2 ^ (Zdigits2 x - 1) <= x < 2 ^ Zdigits2 x.
Proof.
  intros Hx. rewrite Zdigits2_log2 by done.
  replace (Z.log2 x + 1 - 1) with (Z.log2 x) by lia.
  apply Z.log2_spec. done.
Qed.

Lemma Zdigits2_unique (x d : Z) :
  0 < d -> 2 ^ (d - 1) <= x < 2 ^ d -> Zdigits2 x = d.
Proof.
  intros Hd Hx. assert (0 < x) by (pose proof (Z.pow_pos_nonneg 2 (d - 1)); lia).
  rewrite Zdigits2_log2 by done.
  rewrite (Z.log2_unique x (d - 1)); try lia.
  replace (Z.succ (d - 1)) with d by lia. done.
Qed.

Lemma shr_1_nonneg (m : Z) (r s : bool) :
  0 <= m ->
  shr_1 {| shr_m := m; shr_r := r; shr_s := s |}
  = {| shr_m := m / 2; shr_r := Z.odd m; shr_s := r || s |}.
Proof.
  intros Hm. destruct m as [|p|p]; try lia.
  - reflexivity.
  - destruct p as [p|p|]; simpl; f_equal.
    + change (Z.pos p~1) with (2 * Z.pos p + 1)%Z.
      symmetry. rewrite Z.mul_comm. rewrite Z.div_add_l by lia. reflexivity.
    + change (Z.pos p~0) with (2 * Z.pos p)%Z.
      symmetry. rewrite Z.mul_comm. apply Z.div_mul. lia.
Qed.

Lemma new_location_spec (n r : Z) :
  0 < n -> 0 <= r < n ->
  new_location n r =
  if r =? 0 then loc_Exact else loc_Inexact (2 * r ?= n).
Proof.
  intros Hn Hr. unfold new_location, new_location_even, new_location_odd.
  destruct (Z.even n) eqn:En; [reflexivity|].
  destruct (r =? 0); [reflexivity|]. f_equal.
  assert (Z.odd n = true) as Ho by (rewrite <- Z.negb_even, En; reflexivity).
  apply Z.odd_spec in Ho as [k Hk].
  destruct (Z.compare_spec (2 * r + 1) n), (Z.compare_spec (2 * r) n); try reflexivity; lia.
Qed.

Lemma shr_fexp_53 (m e : Z) (l : location) :
  2 ^ 52 <= m < 2 ^ 53 -> -1074 <= e ->
  shr_fexp Float.prec Float.emax m e l = (shr_record_of_loc m l, e).
Proof.
  intros Hm He. unfold shr_fexp.
  rewrite (Zdigits2_unique m 53) by lia.
  replace (fexp Float.prec Float.emax (53 + e) - e) with 0
    by (unfold fexp, emin, Float.prec, Float.emax; lia).
  reflexivity.
Qed.

Lemma shr_fexp_54 (m e : Z) (l : location) :
  2 ^ 53 <= m < 2 ^ 54 -> -1074 <= e ->
  shr_fexp Float.prec Float.emax m e l = (shr_1 (shr_record_of_loc m l), e + 1).
Proof.
  intros Hm He. unfold shr_fexp.
  rewrite (Zdigits2_unique m 54) by lia.
  replace (fexp Float.prec Float.emax (54 + e) - e) with 1
    by (unfold fexp, emin, Float.prec, Float.emax; lia).
  reflexivity.
Qed.

Lemma loc_of_shr_record_of_loc (m : Z) (l : location) :
  loc_of_shr_record (shr_record_of_loc m l) = l.
Proof. destruct l as [|[]]; reflexivity. Qed.

Lemma shr_m_record_of_loc (m : Z) (l : location) :
  shr_m (shr_record_of_loc m l) = m.
Proof. destruct l as [|[]]; reflexivity. Qed.

Lemma round_nearest_even_bounds (m : Z) (l : location) :
  m <= round_nearest_even m l <= m + 1.
Proof. destruct l as [|[]]; simpl; try lia. destruct (Z.even m); lia. Qed.

(** The second half of [binary_round_aux]: the rounded mantissa is kept, or
    has become 2^53 and is renormalised. *)
Lemma round_finish (m1 e : Z) :
  2 ^ 52 <= m1 <= 2 ^ 53 -> -1074 <= e <= 970 ->
  (let '(mrs, e') := shr_fexp Float.prec Float.emax m1 e loc_Exact in
   match shr_m mrs with
   | Z0 => S754_zero false
   | Zpos m => if e' <=? Float.emax - Float.prec then S754_finite false m e' else S754_infinity false
   | Zneg _ => S754_nan
   end)
  = if m1 <? 2 ^ 53 then S754_finite false (Z.to_pos m1) e
    else S754_finite false (Z.to_pos (2 ^ 52)) (e + 1).
Proof.
  intros Hm He. destruct (Z.ltb_spec m1 (2 ^ 53)) as [Hlt|Hge].
  - rewrite shr_fexp_53 by lia. simpl.
    destruct m1 as [|p|p]; try lia.
    change (Float.emax - Float.prec) with 971.
    destruct (Z.leb_spec e 971); [reflexivity|lia].
  - assert (m1 = 2 ^ 53) as -> by lia.
    rewrite shr_fexp_54 by lia. simpl.
    change (Float.emax - Float.prec) with 971.
    destruct (Z.leb_spec (e + 1) 971); [reflexivity|lia].
Qed.

Lemma binary_round_aux_53 (q e : Z) (l : location) :
  2 ^ 52 <= q < 2 ^ 53 -> -1074 <= e <= 970 ->
  binary_round_aux Float.prec Float.emax false q e l
  = if round_nearest_even q l <? 2 ^ 53
    then S754_finite false (Z.to_pos (round_nearest_even q l)) e
    else S754_finite false (Z.to_pos (2 ^ 52)) (e + 1).
Proof.
  intros Hq He. unfold binary_round_aux.
  rewrite shr_fexp_53 by lia.
  rewrite loc_of_shr_record_of_loc, shr_m_record_of_loc.
  pose proof (round_nearest_even_bounds q l).
  apply round_finish; lia.
Qed.

Lemma binary_round_aux_54 (q e : Z) (l : location) :
  2 ^ 53 <= q < 2 ^ 54 -> -1074 <= e <= 969 ->
  binary_round_aux Float.prec Float.emax false q e l
  = let l' := loc_of_shr_record
                {| shr_m := q / 2; shr_r := Z.odd q;
                   shr_s := match l with loc_Exact => false | _ => true end |} in
    if round_nearest_even (q / 2) l' <? 2 ^ 53
    then S754_finite false (Z.to_pos (round_nearest_even (q / 2) l')) (e + 1)
    else S754_finite false (Z.to_pos (2 ^ 52)) (e + 2).
Proof.
  intros Hq He. unfold binary_round_aux.
  rewrite shr_fexp_54 by lia.
  assert (shr_1 (shr_record_of_loc q l)
          = {| shr_m := q / 2; shr_r := Z.odd q;
               shr_s := match l with loc_Exact => false | _ => true end |}) as ->.
  { destruct l as [|[]]; unfold shr_record_of_loc;
      rewrite shr_1_nonneg by lia; reflexivity. }
  cbv zeta. cbn [shr_m]. set (l' := loc_of_shr_record _).
  assert (2 ^ 52 <= q / 2 < 2 ^ 53).
  { split; [apply Z.div_le_lower_bound; lia|apply Z.div_lt_upper_bound; lia]. }
  pose proof (round_nearest_even_bounds (q / 2) l').
  replace (e + 2) with (e + 1 + 1) by lia.
  apply round_finish; lia.
Qed.

Lemma div_eucl_div_mod (x y : Z) : Z.div_eucl x y = (x / y, x mod y).
Proof. unfold Z.div, Z.modulo. destruct (Z.div_eucl x y); reflexivity. Qed.

Lemma Zdigits2_range (x : Z) : 0 < x < 2 ^ 53 -> 1 <= Zdigits2 x <= 53.
Proof.
  intros Hx. pose proof (Zdigits2_bounds x ltac:(lia)) as Hb.
  assert (0 < Zdigits2 x) by (destruct x; simpl; lia).
  split; [lia|].
  destruct (Z.le_gt_cases (Zdigits2 x) 53) as [|Hgt]; [done|].
  assert (2 ^ 53 <= 2 ^ (Zdigits2 x - 1)) by (apply Z.pow_le_mono_r; lia). lia.
Qed.

Lemma SFdiv_core_binary_int (a b : Z) :
  0 < a < 2 ^ 53 -> 0 < b < 2 ^ 53 ->
  SFdiv_core_binary Float.prec Float.emax a 0 b 0
  = ((a * 2 ^ (53 - Zdigits2 a + Zdigits2 b)) / b,
     - (53 - Zdigits2 a + Zdigits2 b),
     new_location b ((a * 2 ^ (53 - Zdigits2 a + Zdigits2 b)) mod b)).
Proof.
  intros Ha Hb. pose proof (Zdigits2_range a Ha). pose proof (Zdigits2_range b Hb).
  unfold SFdiv_core_binary.
  replace (Z.min (fexp Float.prec Float.emax (Zdigits2 a + 0 - (Zdigits2 b + 0))) (0 - 0))
    with (- (53 - Zdigits2 a + Zdigits2 b))
    by (unfold fexp, emin, Float.prec, Float.emax; lia).
  replace (0 - 0 - - (53 - Zdigits2 a + Zdigits2 b))
    with (53 - Zdigits2 a + Zdigits2 b) by lia.
  destruct (53 - Zdigits2 a + Zdigits2 b) as [|s|s] eqn:Es; try lia.
  rewrite Z.shiftl_mul_pow2 by lia. rewrite div_eucl_div_mod. reflexivity.
Qed.

(** The quotient [SFdiv_core_binary] hands to the rounding has 53 or 54 bits. *)
Lemma quotient_bits (a b : Z) :
  0 < a < 2 ^ 53 -> 0 < b < 2 ^ 53 ->
  2 ^ 52 <= (a * 2 ^ (53 - Zdigits2 a + Zdigits2 b)) / b < 2 ^ 54.
Proof.
  intros Ha Hb. pose proof (Zdigits2_range a Ha). pose proof (Zdigits2_range b Hb).
  pose proof (Zdigits2_bounds a ltac:(lia)) as Hda.
  pose proof (Zdigits2_bounds b ltac:(lia)) as Hdb.
  set (s := 53 - Zdigits2 a + Zdigits2 b) in *.
  assert (2 ^ (Zdigits2 a - 1) * 2 ^ s = 2 ^ 53 * 2 ^ (Zdigits2 b - 1)) as Hp.
  { rewrite <- !Z.pow_add_r by lia. f_equal. lia. }
  assert (2 ^ Zdigits2 a = 2 * 2 ^ (Zdigits2 a - 1)) as Ha2.
  { rewrite <- Z.pow_succ_r by lia. f_equal. lia. }
  assert (2 ^ Zdigits2 b = 2 * 2 ^ (Zdigits2 b - 1)) as Hb2.
  { rewrite <- Z.pow_succ_r by lia. f_equal. lia. }
  assert (0 < 2 ^ s) by (apply Z.pow_pos_nonneg; lia).
  split.
  - apply Z.div_le_lower_bound; [lia|]. nia.
  - apply Z.div_lt_upper_bound; [lia|]. nia.
Qed.

Lemma ltb_tenth (m ex : Z) :
  0 < m ->
  Float.gt (S754_finite false (Z.to_pos m) ex) Float.tenth
  = ((-56 <? ex) || ((ex =? -56) && (7205759403792794 <? m)))%bool.
Proof.
  intros Hm. destruct m as [|p|p]; try lia.
  unfold Float.gt, SFltb, SFcompare, Float.tenth.
  destruct (Z.compare_spec (-56) ex) as [<-|Hlt|Hgt].
  - change (-56 <? -56) with false. change (-56 =? -56) with true.
    unfold Z.ltb. simpl. unfold Pos.compare.
    destruct (Pos.compare_cont _ _ _); reflexivity.
  - apply Z.ltb_lt in Hlt. rewrite Hlt. reflexivity.
  - destruct (Z.ltb_spec (-56) ex); [lia|].
    destruct (Z.eqb_spec ex (-56)); [lia|]. reflexivity.
Qed.

Ltac close_ratio m ex :=
  exists m, ex; split; [lia|]; split; [first [done|f_equal; lia]|];
  match goal with
  | |- _ = (?b <? 10 * ?a) =>
      destruct (Z.ltb_spec (-56) ex), (Z.eqb_spec ex (-56)),
        (Z.ltb_spec 7205759403792794 m), (Z.ltb_spec b (10 * a));
      simpl; try done; try nia
  end.

Ltac close_rounded m ex :=
  match goal with
  | |- context [?m1 <? 2 ^ 53] =>
      destruct (Z.ltb_spec m1 (2 ^ 53));
      [close_ratio m ex|close_ratio (2 ^ 52) (ex + 1)]
  end.

Lemma quotient_gt_tenth (a b : Z) :
  0 < a < 2 ^ 53 -> 0 < b <= 8006399337547548 ->
  let '(mz, ez, lz) := SFdiv_core_binary Float.prec Float.emax a 0 b 0 in
  exists m ex, 0 < m /\
    binary_round_aux Float.prec Float.emax false mz ez lz = S754_finite false (Z.to_pos m) ex
    /\ ((-56 <? ex) || ((ex =? -56) && (7205759403792794 <? m)))%bool = (b <? 10 * a).
Proof.
  intros Ha Hb. rewrite SFdiv_core_binary_int by lia.
  pose proof (quotient_bits a b ltac:(lia) ltac:(lia)) as Hq.
  pose proof (Zdigits2_range a Ha). pose proof (Zdigits2_range b ltac:(lia)).
  set (s := 53 - Zdigits2 a + Zdigits2 b) in *.
  assert (1 <= s <= 105) as Hs by lia. clearbody s.
  pose proof (Z.div_mod (a * 2 ^ s) b ltac:(lia)) as Hdiv.
  pose proof (Z.mod_pos_bound (a * 2 ^ s) b ltac:(lia)) as Hr.
  set (q := a * 2 ^ s / b) in *. set (r := (a * 2 ^ s) mod b) in *.
  clearbody q r.
  rewrite new_location_spec by lia.
  assert (0 < 2 ^ s) as Hpow by (apply Z.pow_pos_nonneg; lia).
  assert (s <= 55 -> b < 10 * a) as Hlow.
  { intros Hle. assert (2 ^ s <= 2 ^ 55) by (apply Z.pow_le_mono_r; lia). nia. }
  assert (59 <= s -> 10 * a <= b) as Hhigh.
  { intros Hge. assert (2 ^ 59 <= 2 ^ s) by (apply Z.pow_le_mono_r; lia). nia. }
  assert (s = 56 -> a * 2 ^ 56 = b * q + r) as H56 by (intros <-; done).
  assert (s = 57 -> a * 2 ^ 57 = b * q + r) as H57 by (intros <-; done).
  assert (s = 58 -> a * 2 ^ 58 = b * q + r) as H58 by (intros <-; done).
  clear Hdiv Hpow.
  destruct (Z.lt_ge_cases q (2 ^ 53)) as [Hq53|Hq54].
  - rewrite binary_round_aux_53 by lia.
    destruct (Z.eqb_spec r 0) as [Hr0|Hr0]; [simpl round_nearest_even; close_rounded q (- s)|].
    destruct (Z.compare_spec (2 * r) b) as [Heq|Hlt|Hgt]; simpl round_nearest_even.
    + destruct (Z.even q) eqn:Heven.
      * close_rounded q (- s).
      * close_rounded (q + 1) (- s).
    + close_rounded q (- s).
    + close_rounded (q + 1) (- s).
  - rewrite binary_round_aux_54 by lia.
    pose proof (Z.div2_odd q) as Hodd. rewrite Z.div2_div in Hodd.
    set (h := q / 2) in *. clearbody h.
    destruct (Z.eqb_spec r 0) as [Hr0|Hr0], (Z.odd q); simpl Z.b2z in Hodd;
      cbv zeta; simpl loc_of_shr_record; simpl round_nearest_even.
    + destruct (Z.even h) eqn:Heven.
      * close_rounded h (- s + 1).
      * close_rounded (h + 1) (- s + 1).
    + close_rounded h (- s + 1).
    + close_rounded (h + 1) (- s + 1).
    + close_rounded h (- s + 1).
Qed.

(** For counts below 2^53 and 8006399337547548 (about 2^52.8), the float
    test [a / b > 0.1] decides [10 * a > b]. *)
Lemma true_divide_gt_tenth (a b : Z) :
  0 <= a < 2 ^ 53 -> 0 < b <= 8006399337547548 ->
  exists f, Float.true_divide a b = Returned f
            /\ Float.gt f Float.tenth = (b <? 10 * a).
Proof.
  intros Ha Hb. unfold Float.true_divide.
  destruct (Z.eqb_spec b 0); [lia|].
  destruct (Z.eqb_spec a 0) as [->|Ha0].
  - eexists. split; [done|].
    destruct (Z.ltb_spec b 0); [lia|]. by destruct (Z.ltb_spec b (10 * 0)); [lia|].
  - pose proof (quotient_gt_tenth a b ltac:(lia) Hb) as Hq.
    rewrite !Z.abs_eq by lia.
    destruct (Z.ltb_spec a 0); [lia|]. destruct (Z.ltb_spec b 0); [lia|].
    cbn [xorb].
    destruct (SFdiv_core_binary _ _ _ _ _ _) as [[mz ez] lz].
    destruct Hq as (m & ex & Hm & -> & Hcmp).
    eexists. split; [done|]. by rewrite ltb_tenth.
Qed.

End Binary64Facts.

(** ** Facts about [clean_utterance] *)

Section CleanWords.
Context (remove_english : bool) (english_words : gset string)
        (punctuation : option string) (special_cases : option (list string)).

Local Abbreviation loop := (clean_words_loop remove_english (Some english_words)
                              punctuation special_cases).



End CleanWords.

(** ** The claims on [clean_utterance] *)




(** With [english_words] a set the loop over the tokens returns. *)
Lemma clean_words_loop_returns (remove_english : bool) (english_words : gset string)
    (punctuation : option string) (special_cases : option (list string))
    (words clean_words : list string) (count : Z) :
  exists cleaned,
    clean_words_loop remove_english (Some english_words) punctuation special_cases
      words clean_words count = Returned cleaned.
Proof.
  revert clean_words count. induction words as [|word rest IH]; intros cw count; simpl.
  { by eexists. }
  destruct (is_special_case _ _); [apply IH|].
  destruct (bool_decide _); [by eexists|].
  destruct (_ && negb _); [by eexists|].
  destruct (remove_english && _); [|apply IH].
  simpl. destruct (bool_decide _); apply IH.
Qed.

(** [clean_utterance] raises only when the record has no transcript string. *)
Lemma clean_utterance_raises (utterance : gmap string json) (remove_english : bool)
    (english_words : gset string) (punctuation : option string)
    (special_cases : option (list string)) :
  match clean_utterance utterance remove_english (Some english_words) punctuation
          special_cases with
  | Returned _ => exists s, utterance !! "transcript" = Some (JStr s)
  | Raised e =>
      e = AttributeError "'int' object has no attribute 'lower'"
      \/ e = AttributeError "'NoneType' object has no attribute 'lower'"
  | OutOfFuel => False
  end.
Proof.
  unfold clean_utterance, transcript_lower.
  destruct (utterance !! "transcript") as [[s|n|]|]; simpl; auto.
  destruct (clean_words_loop_returns remove_english english_words punctuation
              special_cases (Str.split (Str.lower s)) [] 0%Z) as [r ->].
  by eexists.
Qed.

(** ** Facts about [is_valid_utterance] *)

(** Without [remove_english] the verdict is the emptiness test alone: the
    count, [use_langid] and the identifier are not looked at. *)
Lemma is_valid_utterance_keep_english (clean_words : list string) (count : Z)
    (use_langid : bool) (langid_identifier : option LanguageIdentifier)
    (st : cleaner_state) :
  is_valid_utterance clean_words count false use_langid langid_identifier st
  = (st, Returned (negb (String.eqb (Str.strip (Str.join " " clean_words)) ""))).
Proof.
  unfold is_valid_utterance. by destruct (String.eqb _ _).
Qed.

(** A verdict leaves the records as they are. *)
Lemma is_valid_utterance_store (clean_words : list string) (count : Z)
    (remove_english use_langid : bool) (langid_identifier : option LanguageIdentifier)
    (st : cleaner_state) :
  store (is_valid_utterance clean_words count remove_english use_langid
           langid_identifier st).1 = store st.
Proof.
  unfold is_valid_utterance. destruct (String.eqb _ _); [done|].
  rewrite run_bind. unfold lift.
  destruct (mostly_english _ _ _) as [[]| |]; try done.
  destruct (remove_english && use_langid); [|done].
  destruct langid_identifier as [identifier|]; [|done].
  unfold emit. rewrite run_modify.
  by destruct (classify _ _) as [lang prob]; destruct (_ && _).
Qed.

(** ** Facts about the loop of [clean_json_data] *)

Section CleanLoop.
Context (remove_english use_langid : bool) (english_words : gset string)
        (langid_identifier : option LanguageIdentifier).

Local Abbreviation loop := (clean_loop remove_english use_langid english_words
                              langid_identifier).

(** One pass of the loop. *)
Lemma clean_loop_cons (utterance : loc) (rest cleaned_data : list loc) (st : cleaner_state) :
  loop (utterance :: rest) cleaned_data st =
  match clean_utterance (store st utterance) remove_english (Some english_words)
          (Some punctuation_to_remove) (Some ["<silence>"]) with
  | Returned cleaned =>
      match is_valid_utterance cleaned.1 cleaned.2 remove_english use_langid
              langid_identifier st with
      | (st', Returned true) =>
          loop rest (cleaned_data ++ [utterance])
            {| store := <[utterance :=
                            <["transcript" := JStr (Str.strip (Str.join " " cleaned.1))]>
                              (store st' utterance)]> (store st');
               trace := trace st' |}
      | (st', Returned false) => loop rest cleaned_data st'
      | (st', Raised e) => (st', Raised e)
      | (st', OutOfFuel) => (st', OutOfFuel)
      end
  | Raised e => (st, Raised e)
  | OutOfFuel => (st, OutOfFuel)
  end.
Proof.
  simpl. rewrite run_gets, run_bind. unfold lift.
  destruct (clean_utterance _ _ _ _ _) as [cleaned| |]; try done.
  rewrite run_bind.
  destruct (is_valid_utterance _ _ _ _ _ st) as [st' [[]| |]]; done.
Qed.

(** The list returned is the list given, followed by a selection of the
    references met, in the order they were met. *)
Lemma clean_loop_sublist (json_data cleaned_data : list loc) (st st' : cleaner_state)
    (out : list loc) :
  loop json_data cleaned_data st = (st', Returned out) ->
  exists kept, out = cleaned_data ++ kept /\ kept `sublist_of` json_data.
Proof.
  revert cleaned_data st. induction json_data as [|u rest IH]; intros acc st.
  { simpl. intros [= <- <-]. exists []. by rewrite app_nil_r. }
  rewrite clean_loop_cons.
  destruct (clean_utterance _ _ _ _ _) as [cleaned| |]; try done.
  destruct (is_valid_utterance _ _ _ _ _ st) as [st1 [[]| |]]; try done.
  - intros Hrun. apply IH in Hrun as (kept & -> & Hsub).
    exists (u :: kept). rewrite <- app_assoc. split; [done|]. by constructor.
  - intros Hrun. apply IH in Hrun as (kept & -> & Hsub).
    exists kept. split; [done|]. by constructor.
Qed.

(** Whatever the run does, it writes transcripts only. *)
Lemma clean_loop_frame (json_data cleaned_data : list loc) (st : cleaner_state)
    (a : loc) (key : string) :
  key <> "transcript" ->
  store (loop json_data cleaned_data st).1 a !! key = store st a !! key.
Proof.
  intros Hkey. revert cleaned_data st.
  induction json_data as [|u rest IH]; intros acc st; [done|].
  rewrite clean_loop_cons.
  destruct (clean_utterance _ _ _ _ _) as [cleaned| |]; try done.
  pose proof (is_valid_utterance_store cleaned.1 cleaned.2 remove_english use_langid
                langid_identifier st) as Hst.
  destruct (is_valid_utterance _ _ _ _ _ st) as [st1 [[]| |]]; simpl in Hst;
    rewrite ?IH; simpl; rewrite ?Hst; try done.
  destruct (decide (u = a)) as [->|Hne].
  - rewrite fn_lookup_insert. by rewrite lookup_insert_ne.
  - by rewrite fn_lookup_insert_ne.
Qed.

(** A record that is not returned is not written. *)
Lemma clean_loop_dropped (json_data cleaned_data : list loc) (st st' : cleaner_state)
    (kept : list loc) (a : loc) :
  loop json_data cleaned_data st = (st', Returned (cleaned_data ++ kept)) ->
  a ∉ kept -> store st' a = store st a.
Proof.
  revert cleaned_data st kept. induction json_data as [|u rest IH]; intros acc st kept.
  { simpl. by intros [= <- _]. }
  rewrite clean_loop_cons.
  destruct (clean_utterance _ _ _ _ _) as [cleaned| |]; try done.
  pose proof (is_valid_utterance_store cleaned.1 cleaned.2 remove_english use_langid
                langid_identifier st) as Hst.
  destruct (is_valid_utterance _ _ _ _ _ st) as [st1 [[]| |]]; simpl in Hst; try done.
  - intros Hrun Hnot.
    destruct (clean_loop_sublist _ _ _ _ _ Hrun) as (kept' & Heq & _).
    rewrite <- app_assoc in Heq. apply app_inv_head in Heq. subst kept.
    change (acc ++ [u] ++ kept') with (acc ++ ([u] ++ kept')) in Hrun.
    rewrite app_assoc in Hrun. apply not_elem_of_cons in Hnot as [Hne Hnot].
    rewrite (IH _ _ _ Hrun Hnot). simpl.
    rewrite fn_lookup_insert_ne by done. by rewrite Hst.
  - intros Hrun Hnot. rewrite (IH _ _ _ Hrun Hnot). by rewrite Hst.
Qed.

(** When no record is listed twice, a record that is returned holds the
    cleaned text of the transcript it came with. *)
Lemma clean_loop_kept (json_data cleaned_data : list loc) (st st' : cleaner_state)
    (kept : list loc) (a : loc) :
  NoDup json_data ->
  loop json_data cleaned_data st = (st', Returned (cleaned_data ++ kept)) ->
  a ∈ kept ->
  exists clean_words count,
    clean_utterance (store st a) remove_english (Some english_words)
      (Some punctuation_to_remove) (Some ["<silence>"]) = Returned (clean_words, count)
    /\ store st' a
       = <["transcript" := JStr (Str.strip (Str.join " " clean_words))]> (store st a).
Proof.
  revert cleaned_data st kept. induction json_data as [|u rest IH]; intros acc st kept Hnd.
  { simpl. intros [= <- Heq]. rewrite <- (app_nil_r acc) in Heq at 1.
    apply app_inv_head in Heq. subst kept. by intros ?%elem_of_nil. }
  pose proof (NoDup_cons_1_1 _ _ Hnd) as Hu. apply NoDup_cons_1_2 in Hnd.
  rewrite clean_loop_cons.
  destruct (clean_utterance _ _ _ _ _) as [cleaned| |] eqn:Hclean; try done.
  pose proof (is_valid_utterance_store cleaned.1 cleaned.2 remove_english use_langid
                langid_identifier st) as Hst.
  destruct (is_valid_utterance _ _ _ _ _ st) as [st1 [[]| |]]; simpl in Hst; try done.
  - intros Hrun Hin.
    destruct (clean_loop_sublist _ _ _ _ _ Hrun) as (kept' & Heq & Hsub).
    rewrite <- app_assoc in Heq. apply app_inv_head in Heq. subst kept.
    change (acc ++ [u] ++ kept') with (acc ++ ([u] ++ kept')) in Hrun.
    rewrite app_assoc in Hrun.
    assert (u ∉ kept') as Hu' by (intros ?; apply Hu; by eapply sublist_subseteq).
    apply elem_of_cons in Hin as [->|Hin].
    + rewrite (clean_loop_dropped _ _ _ _ _ _ Hrun Hu'). simpl.
      rewrite fn_lookup_insert, Hst. destruct cleaned as [cw n]. by exists cw, n.
    + assert (a <> u) as Hne by (intros ->; done).
      destruct (IH _ _ _ Hnd Hrun Hin) as (cw & n & Hc & Hs). simpl in Hc, Hs.
      rewrite fn_lookup_insert_ne in Hc, Hs by done. rewrite Hst in Hc, Hs.
      by exists cw, n.
  - intros Hrun Hin.
    destruct (clean_loop_sublist _ _ _ _ _ Hrun) as (kept' & Heq & Hsub).
    apply app_inv_head in Heq. subst kept'.
    destruct (IH _ _ _ Hnd Hrun Hin) as (cw & n & Hc & Hs).
    rewrite Hst in Hc, Hs. by exists cw, n.
Qed.

End CleanLoop.

(** ** The size of the cleaned text

    The counts a run divides are bounded by the length of the transcript,
    and the text written back is not longer than the text read. *)

Lemma length_append (s t : string) :
  String.length (s +:+ t) = String.length s + String.length t.
Proof. induction s as [|c s IH]; [done|]. rewrite append_cons. simpl. by rewrite IH. Qed.

Lemma lower_length (s : string) : String.length (Str.lower s) = String.length s.
Proof. induction s as [|c s IH]; simpl; [done|]. by rewrite IH. Qed.

Lemma rstrip_length (s : string) : String.length (Str.rstrip s) <= String.length s.
Proof.
  induction s as [|c s IH]; simpl; [done|].
  destruct (Str.rstrip s); [destruct (Str.isspace c)|]; simpl in *; lia.
Qed.

Lemma strip_length (s : string) : String.length (Str.strip s) <= String.length s.
Proof.
  unfold Str.strip. pose proof (rstrip_length (Str.lstrip s)).
  pose proof (lstrip_length s). lia.
Qed.

Lemma split_ws_aux_size (s cur : string) :
  text_size (Str.split_ws_aux s cur) <= String.length s + String.length cur + 1.
Proof.
  revert cur. induction s as [|c s IH]; intros cur; simpl.
  - destruct cur; simpl; lia.
  - destruct (Str.isspace c).
    + destruct cur; simpl; specialize (IH EmptyString); simpl in IH; lia.
    + specialize (IH (cur +:+ String c EmptyString)).
      rewrite length_append in IH. simpl in IH. lia.
Qed.

Lemma split_size (s : string) : text_size (Str.split s) <= String.length s + 1.
Proof. pose proof (split_ws_aux_size s EmptyString). simpl in *. unfold Str.split. lia. Qed.

Lemma text_size_app (l k : list string) : text_size (l ++ k) = text_size l + text_size k.
Proof. induction l as [|w l IH]; simpl; lia. Qed.

Lemma text_size_length (l : list string) : length l <= text_size l.
Proof. induction l as [|w l IH]; simpl; lia. Qed.

Lemma join_size (l : list string) :
  l <> [] -> String.length (Str.join " " l) + 1 <= text_size l.
Proof.
  induction l as [|w l IH]; [done|]. intros _.
  destruct l as [|w' l]; [simpl; lia|].
  change (Str.join " " (w :: w' :: l)) with (w +:+ " " +:+ Str.join " " (w' :: l)).
  rewrite !length_append. specialize (IH ltac:(done)).
  change (text_size (w :: w' :: l)) with (S (String.length w) + text_size (w' :: l)).
  change (String.length " ") with 1. lia.
Qed.

Lemma remove_char_length (mark : ascii) (s : string) :
  String.length (Str.remove_char mark s) <= String.length s.
Proof.
  induction s as [|c s IH]; simpl; [done|].
  destruct (Ascii.eqb c mark); simpl; lia.
Qed.

Lemma remove_marks_length (punctuation word : string) :
  String.length (remove_marks punctuation word) <= String.length word.
Proof.
  revert word. induction punctuation as [|mark rest IH]; intros word; simpl; [done|].
  pose proof (IH (Str.remove_char mark word)).
  pose proof (remove_char_length mark word). lia.
Qed.

Lemma clean_words_loop_size (remove_english : bool) (english_words : option (gset string))
    (punctuation : option string) (special_cases : option (list string))
    (words clean_words : list string) (count : Z) (kept : list string) (english : Z) :
  clean_words_loop remove_english english_words punctuation special_cases
    words clean_words count = Returned (kept, english) ->
  (0 <= count)%Z ->
  text_size kept <= text_size clean_words + text_size words
  /\ (0 <= english <= count + Z.of_nat (length words))%Z.
Proof.
  revert clean_words count.
  induction words as [|word rest IH]; intros cw count; simpl.
  { intros [= <- <-]. lia. }
  intros Hrun Hcount.
  assert (forall cw' count',
            clean_words_loop remove_english english_words punctuation special_cases
              rest cw' count' = Returned (kept, english) ->
            (0 <= count')%Z ->
            text_size cw' <= text_size cw + S (String.length word) ->
            (count' <= count + 1)%Z ->
            text_size kept <= text_size cw + S (String.length word + text_size rest)
            /\ (0 <= english <= count + Z.pos (Pos.of_succ_nat (length rest)))%Z) as Hnext.
  { intros cw' count' Hr Hc Hs Hle. destruct (IH _ _ Hr Hc). lia. }
  destruct (is_special_case _ _); [apply (Hnext _ _ Hrun); lia|].
  destruct (bool_decide _); [injection Hrun as <- <-; simpl; lia|].
  destruct (_ && negb _); [injection Hrun as <- <-; simpl; lia|].
  set (w := match punctuation with Some marks => remove_marks marks word | None => word end) in *.
  assert (String.length w <= String.length word) as Hw.
  { unfold w. destruct punctuation; [apply remove_marks_length|done]. }
  assert (text_size (cw ++ [w]) <= text_size cw + S (String.length word)) as Hsize
    by (rewrite text_size_app; simpl; lia).
  destruct (remove_english && _); [|apply (Hnext _ _ Hrun); lia].
  destruct (in_english_words _ _) as [[]| |]; simpl in Hrun; try done;
    apply (Hnext _ _ Hrun); lia.
Qed.

(** ** The ratio test of [is_valid_utterance] *)

Lemma english_ratio_gt (count : Z) (clean_words : list string) :
  0 < length clean_words ->
  (1 # 10 < english_ratio count clean_words)%Q
  <-> (Z.of_nat (length clean_words) < 10 * count)%Z.
Proof.
  intros Hn. unfold english_ratio, Qlt. simpl.
  rewrite <- (Nat2Pos.id (length clean_words)) at 2 by lia.
  rewrite positive_nat_Z. lia.
Qed.

(** For a count below 2^53 and at most 2^52 kept tokens the float test is
    the comparison of the exact ratio with one tenth. *)
Lemma mostly_english_spec (clean_words : list string) (count : Z) (remove_english : bool) :
  (0 <= count < 2 ^ 53)%Z ->
  (Z.of_nat (length clean_words) <= 2 ^ 52)%Z ->
  mostly_english clean_words count remove_english
  = Returned (remove_english && (0 <? length clean_words)
              && (Z.of_nat (length clean_words) <? 10 * count)%Z).
Proof.
  intros Hc Hn. unfold mostly_english.
  destruct (remove_english && (0 <? length clean_words)) eqn:E; [|done].
  apply andb_true_iff in E as [_ Hpos%Nat.ltb_lt].
  destruct (true_divide_gt_tenth count (Z.of_nat (length clean_words)))
    as (f & -> & Hgt); [lia|lia|].
  simpl. by rewrite Hgt.
Qed.

(** C6.  With [remove_english], at least one kept token and a ratio of
    English words to kept tokens above one tenth, the utterance is rejected,
    whatever [use_langid] and the identifier are; at a ratio of one tenth or
    less the ratio test rejects nothing, and without [use_langid] a
    non-empty text is then accepted.  The ratio is computed in binary64, and
    the counts are taken below 2^52, beyond any list that fits in memory.
    1 English word for 5 kept tokens is rejected, 1 for 10 is not. *)
Theorem C6_english_ratio_above_tenth_rejected
    (clean_words : list string) (english_word_count : Z) (use_langid : bool)
    (langid_identifier : option LanguageIdentifier) (st : cleaner_state) :
  0 < length clean_words ->
  (Z.of_nat (length clean_words) < 2 ^ 52)%Z ->
  (0 <= english_word_count < 2 ^ 52)%Z ->
  ((1 # 10 < english_ratio english_word_count clean_words)%Q ->
   is_valid_utterance clean_words english_word_count true use_langid langid_identifier st
   = (st, Returned false))
  /\ ((english_ratio english_word_count clean_words <= 1 # 10)%Q ->
      mostly_english clean_words english_word_count true = Returned false
      /\ is_valid_utterance clean_words english_word_count true false langid_identifier st
         = (st, Returned (negb (String.eqb (Str.strip (Str.join " " clean_words)) ""))))
  /\ is_valid_utterance ["a"; "b"; "c"; "d"; "e"] 1 true use_langid langid_identifier st
     = (st, Returned false)
  /\ is_valid_utterance ["a"; "b"; "c"; "d"; "e"; "f"; "g"; "h"; "i"; "j"] 1 true false
       langid_identifier st
     = (st, Returned true).
Proof.
  intros Hn Hlen Hcount.
  pose proof (mostly_english_spec clean_words english_word_count true
                ltac:(lia) ltac:(lia)) as Hm.
  apply Nat.ltb_lt in Hn as Hn'. rewrite Hn' in Hm. simpl in Hm.
  split; [|split; [|split]].
  - intros Hratio%english_ratio_gt; [|done]. apply Z.ltb_lt in Hratio.
    unfold is_valid_utterance. destruct (String.eqb _ _); [done|].
    rewrite Hm, Hratio. done.
  - intros Hratio. apply Qle_not_lt in Hratio. rewrite english_ratio_gt in Hratio by done.
    destruct (Z.ltb_spec (Z.of_nat (length clean_words)) (10 * english_word_count));
      [lia|].
    split; [done|]. unfold is_valid_utterance.
    destruct (String.eqb _ _); [done|]. by rewrite Hm.
  - done.
  - done.
Qed.

Lemma C6_witness :
  is_valid_utterance ["kia"; "ora"; "e"; "hoa"] 1 true true None
    {| store := fun _ => ∅; trace := [] |}
  = ({| store := fun _ => ∅; trace := [] |}, Returned false).
Proof.
  refine (proj1 (C6_english_ratio_above_tenth_rejected
                   ["kia"; "ora"; "e"; "hoa"] 1 true None _ _ _ _) _).
  - simpl. lia.
  - simpl. lia.
  - lia.
  - unfold english_ratio, Qlt. simpl. lia.
Defined.

(** ** Runs of [clean_json_data] that return *)

Lemma is_valid_utterance_returns (clean_words : list string) (count : Z)
    (remove_english use_langid : bool) (langid_identifier : option LanguageIdentifier)
    (st : cleaner_state) :
  (0 <= count < 2 ^ 53)%Z ->
  (Z.of_nat (length clean_words) <= 2 ^ 52)%Z ->
  (remove_english && use_langid = true -> is_Some langid_identifier) ->
  exists st' valid,
    is_valid_utterance clean_words count remove_english use_langid langid_identifier st
    = (st', Returned valid).
Proof.
  intros Hc Hn Hid. unfold is_valid_utterance.
  destruct (String.eqb _ _); [by eexists _, _|].
  rewrite mostly_english_spec by done. rewrite run_lift.
  destruct (_ && _ && _); [by eexists _, _|].
  destruct (remove_english && use_langid); [|by eexists _, _].
  destruct (Hid eq_refl) as [identifier ->].
  unfold emit. rewrite run_modify.
  destruct (classify _ _) as [lang prob]. destruct (_ && _); by eexists _, _.
Qed.

(** What [clean_utterance] returns on a transcript is bounded by the
    transcript. *)
Lemma clean_utterance_size (utterance : gmap string json) (transcript : string)
    (remove_english : bool) (english_words : gset string)
    (punctuation : option string) (special_cases : option (list string)) :
  utterance !! "transcript" = Some (JStr transcript) ->
  exists clean_words count,
    clean_utterance utterance remove_english (Some english_words) punctuation
      special_cases = Returned (clean_words, count)
    /\ length clean_words <= String.length transcript + 1
    /\ (0 <= count <= Z.of_nat (String.length transcript) + 1)%Z
    /\ String.length (Str.strip (Str.join " " clean_words)) <= String.length transcript.
Proof.
  intros Hget. unfold clean_utterance, transcript_lower. rewrite Hget. simpl.
  destruct (clean_words_loop_returns remove_english english_words punctuation
              special_cases (Str.split (Str.lower transcript)) [] 0%Z) as [[cw n] Hrun].
  exists cw, n. split; [done|].
  destruct (clean_words_loop_size _ _ _ _ _ _ _ _ _ Hrun ltac:(done)) as [Hsize Hcount].
  pose proof (split_size (Str.lower transcript)) as Hsplit.
  rewrite lower_length in Hsplit. simpl in Hsize.
  pose proof (text_size_length cw). pose proof (text_size_length (Str.split (Str.lower transcript))).
  split; [lia|]. split; [lia|].
  pose proof (strip_length (Str.join " " cw)).
  destruct cw as [|w cw]; [simpl in *; lia|].
  pose proof (join_size (w :: cw) ltac:(done)). lia.
Qed.

Lemma clean_loop_returns (remove_english use_langid : bool) (english_words : gset string)
    (langid_identifier : option LanguageIdentifier)
    (json_data cleaned_data : list loc) (st : cleaner_state) :
  (remove_english && use_langid = true -> is_Some langid_identifier) ->
  has_transcripts st json_data ->
  exists st' out,
    clean_loop remove_english use_langid english_words langid_identifier
      json_data cleaned_data st = (st', Returned out).
Proof.
  intros Hid. revert cleaned_data st.
  induction json_data as [|u rest IH]; intros acc st Hwf; [by eexists _, _|].
  rewrite clean_loop_cons.
  destruct (Hwf u) as (t & Ht & Hlen); [by left|].
  destruct (clean_utterance_size (store st u) t remove_english english_words
              (Some punctuation_to_remove) (Some ["<silence>"]) Ht)
    as (cw & n & -> & Hcw & Hn & Htext).
  destruct (is_valid_utterance_returns cw n remove_english use_langid langid_identifier st)
    as (st1 & valid & Hvalid); [lia|lia|done|].
  pose proof (is_valid_utterance_store cw n remove_english use_langid
                langid_identifier st) as Hst.
  simpl. rewrite Hvalid in Hst |- *. simpl in Hst.
  destruct valid; apply IH; intros a Ha.
  - simpl. destruct (decide (u = a)) as [->|Hne].
    + rewrite fn_lookup_insert, lookup_insert_eq. eexists. split; [done|]. lia.
    + rewrite fn_lookup_insert_ne by done. rewrite Hst. apply Hwf. by right.
  - rewrite Hst. apply Hwf. by right.
Qed.

Section CleanJsonData.
Context (nltk_words : list string) (langid_model : LanguageIdentifier).

Local Abbreviation run := (clean_json_data nltk_words langid_model).

(** [clean_json_data] is its loop, run after the setup. *)
Lemma clean_json_data_loop (json_data : list loc) (remove_english use_langid : bool)
    (st : cleaner_state) :
  run json_data remove_english use_langid st
  = clean_loop remove_english use_langid
      (if remove_english then list_to_set nltk_words else ∅)
      (if remove_english && use_langid then Some langid_model else None)
      json_data []
      {| store := store st;
         trace := trace st
                  ++ (if remove_english then [NltkDownload] else [])
                  ++ (if remove_english && use_langid then [FromModelstring] else []) |}.
Proof.
  destruct st as [s t]. unfold clean_json_data.
  destruct remove_english, use_langid; simpl; rewrite ?app_nil_r; try done.
  all: rewrite run_bind; simpl; by rewrite <- ?app_assoc.
Qed.

End CleanJsonData.

(** ** Runs that keep English *)

Lemma clean_loop_keep_english (use_langid : bool) (english_words : gset string)
    (langid_identifier : option LanguageIdentifier)
    (json_data cleaned_data : list loc) (st : cleaner_state) :
  clean_loop false use_langid english_words langid_identifier json_data cleaned_data st
  = clean_loop false false english_words None json_data cleaned_data st.
Proof.
  revert cleaned_data st. induction json_data as [|u rest IH]; intros acc st; [done|].
  rewrite !clean_loop_cons.
  destruct (clean_utterance _ _ _ _ _) as [cleaned| |]; try done.
  rewrite !is_valid_utterance_keep_english.
  destruct (negb _); apply IH.
Qed.

Lemma clean_loop_keep_english_trace (english_words : gset string)
    (json_data cleaned_data : list loc) (st : cleaner_state) :
  trace (clean_loop false false english_words None json_data cleaned_data st).1 = trace st.
Proof.
  revert cleaned_data st. induction json_data as [|u rest IH]; intros acc st; [done|].
  rewrite clean_loop_cons.
  destruct (clean_utterance _ _ _ _ _) as [cleaned| |]; try done.
  rewrite is_valid_utterance_keep_english.
  destruct (negb _); by rewrite IH.
Qed.

Lemma clean_loop_keep_english_raises (english_words : gset string)
    (json_data cleaned_data : list loc) (st : cleaner_state) (e : exn) :
  (clean_loop false false english_words None json_data cleaned_data st).2 = Raised e ->
  e = AttributeError "'int' object has no attribute 'lower'"
  \/ e = AttributeError "'NoneType' object has no attribute 'lower'".
Proof.
  revert cleaned_data st. induction json_data as [|u rest IH]; intros acc st; [done|].
  rewrite clean_loop_cons.
  pose proof (clean_utterance_raises (store st u) false english_words
                (Some punctuation_to_remove) (Some ["<silence>"])) as Hraise.
  destruct (clean_utterance _ _ _ _ _) as [cleaned|e'|]; [|by intros [= <-]|done].
  rewrite is_valid_utterance_keep_english.
  destruct (negb _); apply IH.
Qed.

(** ** The claims on [clean_json_data] *)

(** C7.  The list [clean_json_data] returns is a subsequence of the list it
    was given: the references it keeps, in the order they came, none twice
    for one place of the input.  It returns whenever every record listed
    holds a transcript string (of fewer than 2^52 characters). *)
Theorem C7_output_is_subsequence
    (nltk_words : list string) (langid_model : LanguageIdentifier)
    (json_data : list loc) (remove_english use_langid : bool) (st : cleaner_state) :
  (forall st' out,
      clean_json_data nltk_words langid_model json_data remove_english use_langid st
      = (st', Returned out) ->
      out `sublist_of` json_data)
  /\ (has_transcripts st json_data ->
      exists st' out,
        clean_json_data nltk_words langid_model json_data remove_english use_langid st
        = (st', Returned out)).
Proof.
  rewrite clean_json_data_loop. split.
  - intros st' out Hrun. by apply clean_loop_sublist in Hrun as (kept & -> & Hsub).
  - intros Hwf. apply clean_loop_returns; [|done].
    destruct (remove_english && use_langid); [by eexists|done].
Qed.

Lemma C7_witness :
  exists st',
    clean_json_data ["hello"] example_identifier [0; 1; 2] true true example_batch
    = (st', Returned [0; 2])
    /\ [0; 2] `sublist_of` [0; 1; 2].
Proof.
  destruct (C7_output_is_subsequence ["hello"] example_identifier [0; 1; 2] true true
              example_batch) as [Hsub Hreturns].
  destruct Hreturns as (st' & out & Hrun).
  - intros a Ha. apply elem_of_cons in Ha as [->|Ha]; [|apply elem_of_cons in Ha as [->|Ha]];
      [| |apply elem_of_cons in Ha as [->|Ha]; [|by apply elem_of_nil in Ha]];
      (eexists; split; [reflexivity|vm_compute; reflexivity]).
  - pose proof (Hsub st' out Hrun) as Hout.
    assert (out = [0; 2]) as ->
      by (apply (f_equal snd) in Hrun; vm_compute in Hrun; congruence).
    by exists st'.
Defined.

(** C8.  After a run that returns, every field other than the transcript is
    what it was, in every record; a record that is not returned is not
    written at all; and, no record being listed twice, a record that is
    returned differs from what it was by its transcript only, now the
    cleaned words joined by spaces and stripped. *)
Theorem C8_only_transcript_rewritten
    (nltk_words : list string) (langid_model : LanguageIdentifier)
    (json_data : list loc) (remove_english use_langid : bool)
    (st st' : cleaner_state) (out : list loc) :
  clean_json_data nltk_words langid_model json_data remove_english use_langid st
  = (st', Returned out) ->
  (forall a key, key <> "transcript" -> store st' a !! key = store st a !! key)
  /\ (forall a, a ∉ out -> store st' a = store st a)
  /\ (NoDup json_data ->
      forall a, a ∈ out ->
        exists clean_words count,
          clean_utterance (store st a) remove_english
            (Some (if remove_english then list_to_set nltk_words else ∅))
            (Some punctuation_to_remove) (Some ["<silence>"])
          = Returned (clean_words, count)
          /\ store st' a
             = <["transcript" := JStr (Str.strip (Str.join " " clean_words))]> (store st a)).
Proof.
  rewrite clean_json_data_loop. intros Hrun. split; [|split].
  - intros a key Hkey.
    match type of Hrun with
    | clean_loop ?re ?ul ?ew ?id ?data ?acc ?s = _ =>
        pose proof (clean_loop_frame re ul ew id data acc s a key Hkey) as Hframe
    end.
    by rewrite Hrun in Hframe.
  - intros a Ha. by rewrite (clean_loop_dropped _ _ _ _ _ _ _ _ out a Hrun Ha).
  - intros Hnd a Ha.
    by destruct (clean_loop_kept _ _ _ _ _ _ _ _ out a Hnd Hrun Ha) as (cw & n & Hc & Hs);
      exists cw, n.
Qed.

Lemma C8_witness :
  let st' := (clean_json_data [] example_identifier [0; 1; 2] false false example_batch).1 in
  store st' 0 !! "speaker_id" = Some (JStr "A")
  /\ store st' 0 !! "stop_ms" = Some (JNum 1500)
  /\ store st' 0 !! "transcript" = Some (JStr "kia ora e hoa")
  /\ store st' 1 = store example_batch 1.
Proof.
  intros st'.
  assert (clean_json_data [] example_identifier [0; 1; 2] false false example_batch
          = (st', Returned [0; 2])) as Hrun by (vm_compute; reflexivity).
  destruct (C8_only_transcript_rewritten _ _ _ _ _ _ _ _ Hrun) as (Hframe & Hdropped & Hkept).
  split; [|split; [|split]].
  - rewrite Hframe by done. reflexivity.
  - rewrite Hframe by done. reflexivity.
  - destruct (Hkept ltac:(by apply (bool_decide_unpack _); vm_compute) 0 ltac:(by left))
      as (cw & n & Hc & ->).
    vm_compute in Hc. injection Hc as <- <-. reflexivity.
  - apply Hdropped. by apply (bool_decide_unpack _); vm_compute.
Defined.

(** C10.  Without [remove_english] a run is the same whether [use_langid] is
    set or not: same result, same records.  It makes no call outside the
    module (the identifier is neither built nor asked), and it never raises
    for want of an identifier: what it can raise is the [AttributeError] of
    a record without a transcript string. *)
Theorem C10_use_langid_needs_remove_english
    (nltk_words : list string) (langid_model : LanguageIdentifier)
    (json_data : list loc) (use_langid : bool) (st : cleaner_state) :
  clean_json_data nltk_words langid_model json_data false use_langid st
  = clean_json_data nltk_words langid_model json_data false false st
  /\ trace (clean_json_data nltk_words langid_model json_data false use_langid st).1
     = trace st
  /\ (clean_json_data nltk_words langid_model json_data false use_langid st).2
     <> Raised (AttributeError "'NoneType' object has no attribute 'classify'").
Proof.
  rewrite !clean_json_data_loop. simpl. rewrite !app_nil_r.
  rewrite clean_loop_keep_english. split; [done|]. split.
  - by rewrite clean_loop_keep_english_trace.
  - intros Hraise. by apply clean_loop_keep_english_raises in Hraise as [|].
Qed.

(** * Further properties of the code *)

(** ** More facts about the string functions *)

Lemma forallb_append (p : ascii -> bool) (s t : string) :
  Str.forallb p (s +:+ t) = Str.forallb p s && Str.forallb p t.
Proof.
  induction s as [|c s IH]; [done|]. rewrite append_cons. simpl.
  by rewrite IH, andb_assoc.
Qed.

Lemma forallb_lstrip (p : ascii -> bool) (s : string) :
  Str.forallb p s = true -> Str.forallb p (Str.lstrip s) = true.
Proof.
  induction s as [|c s IH]; simpl; [done|].
  intros [Hc Hs]%andb_true_iff. destruct (Str.isspace c); [by apply IH|].
  simpl. by rewrite Hc, Hs.
Qed.

Lemma forallb_rstrip (p : ascii -> bool) (s : string) :
  Str.forallb p s = true -> Str.forallb p (Str.rstrip s) = true.
Proof.
  induction s as [|c s IH]; simpl; [done|].
  intros [Hc Hs]%andb_true_iff. specialize (IH Hs).
  destruct (Str.rstrip s); [destruct (Str.isspace c)|]; simpl in *; by rewrite ?Hc, ?IH.
Qed.

Lemma forallb_strip (p : ascii -> bool) (s : string) :
  Str.forallb p s = true -> Str.forallb p (Str.strip s) = true.
Proof. intros. by apply forallb_rstrip, forallb_lstrip. Qed.

Lemma lstrip_lstrip (s : string) : Str.lstrip (Str.lstrip s) = Str.lstrip s.
Proof.
  induction s as [|c s IH]; simpl; [done|].
  destruct (Str.isspace c) eqn:E; [done|]. simpl. by rewrite E.
Qed.

Lemma rstrip_rstrip (s : string) : Str.rstrip (Str.rstrip s) = Str.rstrip s.
Proof.
  induction s as [|c s IH]; simpl; [done|].
  destruct (Str.rstrip s) as [|a r] eqn:E.
  - destruct (Str.isspace c) eqn:Ec; simpl; [done|]. by rewrite Ec.
  - simpl in *. by rewrite IH.
Qed.

Lemma lstrip_rstrip (s : string) :
  Str.lstrip s = s -> Str.lstrip (Str.rstrip s) = Str.rstrip s.
Proof.
  destruct s as [|c s]; [done|]. intros Hc%lstrip_fixed. simpl.
  destruct (Str.rstrip s); rewrite ?Hc; simpl; by rewrite Hc.
Qed.

(** [strip] removes all it can: stripping twice is stripping once. *)
Lemma strip_strip (s : string) : Str.strip (Str.strip s) = Str.strip s.
Proof.
  unfold Str.strip.
  rewrite (lstrip_rstrip (Str.lstrip s)) by apply lstrip_lstrip.
  apply rstrip_rstrip.
Qed.

Lemma lstrip_append_cases (s t : string) :
  Str.lstrip (s +:+ t) =
  match Str.lstrip s with
  | EmptyString => Str.lstrip t
  | String a r => String a r +:+ t
  end.
Proof.
  induction s as [|c s IH]; [rewrite append_nil_l; by destruct (Str.lstrip t)|].
  rewrite append_cons. simpl. by destruct (Str.isspace c).
Qed.

(** The line feed that ends a line does not survive [strip]. *)
Lemma strip_line (body : string) : Str.strip (body +:+ Str.nl) = Str.strip body.
Proof.
  unfold Str.strip. rewrite lstrip_append_cases.
  destruct (Str.lstrip body) as [|a r]; [done|].
  by rewrite rstrip_append.
Qed.

(** What [readlines] returns: lines without a line feed, but for the one
    that ends them. *)
Lemma readlines_aux_lines (s cur : string) :
  single_line cur = true ->
  Forall (fun line => exists body,
              single_line body = true /\ (line = body +:+ Str.nl \/ line = body))
    (Str.readlines_aux s cur).
Proof.
  revert cur. induction s as [|c s IH]; intros cur Hcur; simpl.
  - destruct cur; repeat constructor. exists (String a cur). by split; [|right].
  - destruct (Ascii.eqb c "010") eqn:E.
    + constructor; [|by apply IH]. exists cur. by split; [|left].
    + apply IH. unfold single_line in *. rewrite forallb_append, Hcur. simpl.
      by rewrite E.
Qed.

Lemma readlines_lines (content : string) :
  Forall (fun line => single_line (Str.strip line) = true) (Str.readlines content).
Proof.
  eapply List.Forall_impl; [|apply (readlines_aux_lines content EmptyString eq_refl)].
  intros line (body & Hbody & [->| ->]); [rewrite strip_line|];
    by apply forallb_strip.
Qed.

(** ** [parse_input] and [parse_configs] *)

(** X1.  The words [parse_input] returns are not empty, have no whitespace
    at either end and hold no line feed: blank lines give no word. *)
Theorem parse_input_words (input_file : string) :
  Forall (fun token =>
            token <> EmptyString /\ Str.strip token = token /\ single_line token = true)
    (parse_input input_file).
Proof.
  unfold parse_input. pose proof (readlines_lines input_file) as Hlines.
  induction Hlines as [|line rest Hline _ IH]; simpl; [constructor|].
  destruct (Nat.ltb_spec 0 (String.length (Str.strip line))) as [Hlen|_]; [|done].
  constructor; [|done]. split; [|split; [apply strip_strip|done]].
  intros Heq. rewrite Heq in Hlen. simpl in Hlen. lia.
Qed.

Lemma split_space1_shape (s : string) :
  (Str.split_space1 s = [s] /\ has_space s = false)
  \/ exists g p, Str.split_space1 s = [g; p] /\ s = g +:+ " " +:+ p /\ has_space g = false.
Proof.
  unfold has_space. induction s as [|c s IH]; simpl; [by left|].
  destruct (Ascii.eqb_spec c " ") as [->|Hc].
  - right. by exists EmptyString, s.
  - simpl. destruct IH as [[-> Hs]|(g & p & -> & -> & Hg)].
    + by left.
    + right. exists (String c g), p. simpl.
      destruct (Ascii.eqb_spec c " "); [done|]. by rewrite Hg.
Qed.

(** A mapping is collected from a line that is not a comment and whose
    stripped text is the grapheme, a space and the phoneme. *)
Lemma collect_mappings_sound (config_lines : list string)
    (sound_mappings : list (string * string)) :
  collect_mappings config_lines = Returned sound_mappings ->
  Forall (fun maps =>
            exists line,
              line ∈ config_lines
              /\ String.get 0 line <> Some "#"%char
              /\ Str.strip line = maps.1 +:+ " " +:+ maps.2
              /\ maps.1 <> EmptyString /\ has_space maps.1 = false
              /\ maps.2 <> EmptyString)
    sound_mappings.
Proof.
  revert sound_mappings. induction config_lines as [|line rest IH]; intros sm.
  { simpl. intros [= <-]. constructor. }
  assert (forall sm', collect_mappings rest = Returned sm' ->
            Forall (fun maps =>
                      exists line0,
                        line0 ∈ line :: rest
                        /\ String.get 0 line0 <> Some "#"%char
                        /\ Str.strip line0 = maps.1 +:+ " " +:+ maps.2
                        /\ maps.1 <> EmptyString /\ has_space maps.1 = false
                        /\ maps.2 <> EmptyString) sm') as Hrest.
  { intros sm' Hsm'. eapply List.Forall_impl; [|apply (IH _ Hsm')].
    intros maps (l & Hl & H). exists l. split; [by right|done]. }
  destruct line as [|c line]; [done|]. rewrite collect_mappings_cons.
  destruct (Ascii.eqb_spec c "#") as [->|Hc]; [apply Hrest|].
  destruct (split_space1_shape (Str.strip (String c line)))
    as [[-> _]|(g & p & -> & Hstrip & Hg)].
  { simpl. destruct (Str.truthy _); apply Hrest. }
  simpl. destruct g as [|a g]; simpl; [destruct (Str.truthy p); apply Hrest|].
  destruct p as [|b p]; simpl; [apply Hrest|].
  destruct (collect_mappings rest) as [tl| |]; simpl; try done.
  intros [= <-]. constructor; [|by apply Hrest].
  exists (String c line). split; [by left|]. split; [simpl; congruence|].
  by repeat split.
Qed.

(** X2.  [parse_configs] returns a table on every config text, and each
    mapping of the table is the rule of a line of the file: a line that does
    not start with [#] and whose stripped text is the grapheme, one space,
    the phoneme; the grapheme is not empty and holds no space, the phoneme is
    not empty, and neither holds a line feed. *)
Theorem parse_configs_rules (config_file : string) :
  exists table,
    parse_configs config_file = Returned table
    /\ Forall (fun maps =>
                 (exists line,
                     line ∈ Str.readlines config_file
                     /\ String.get 0 line <> Some "#"%char
                     /\ Str.strip line = maps.1 +:+ " " +:+ maps.2)
                 /\ maps.1 <> EmptyString /\ has_space maps.1 = false
                 /\ maps.2 <> EmptyString
                 /\ single_line maps.1 = true /\ single_line maps.2 = true)
         table.
Proof.
  destruct (parse_configs_returns config_file) as (collected & Hc & Hp).
  eexists. split; [exact Hp|]. rewrite sort_reverse_Permutation.
  eapply List.Forall_impl; [|apply (collect_mappings_sound _ _ Hc)].
  intros maps (line & Hin & Hhash & Hstrip & Hg & Hsp & Hph).
  split; [by exists line|]. repeat (split; [done|]).
  pose proof (readlines_lines config_file) as Hlines.
  rewrite List.Forall_forall in Hlines.
  specialize (Hlines line ltac:(by apply list_elem_of_In)).
  rewrite Hstrip in Hlines. unfold single_line in *.
  rewrite !forallb_append in Hlines.
  by apply andb_true_iff in Hlines as [? [_ ?]%andb_true_iff].
Qed.

(** ** The segmenter, pass by pass *)

Lemma append_nil_r (s : string) : s +:+ EmptyString = s.
Proof. induction s as [|c s IH]; [done|]. by rewrite append_cons, IH. Qed.

Lemma join_empty_cons (x : string) (l : list string) :
  Str.join "" (x :: l) = x +:+ Str.join "" l.
Proof. destruct l; simpl; [by rewrite append_nil_r|done]. Qed.

Lemma slice_from_ge (i : nat) (s : string) :
  String.length s <= i -> slice_from i s = EmptyString.
Proof.
  revert i. induction s as [|c s IH]; intros [|i]; simpl; try done; [lia|].
  intros. apply IH. lia.
Qed.

Lemma substring_prefix (g s : string) :
  String.substring 0 (String.length g) s = g ->
  s = g +:+ slice_from (String.length g) s.
Proof.
  revert s. induction g as [|a g IH]; intros s; simpl; [done|].
  destruct s as [|c s]; [done|]. intros [= -> Hg].
  rewrite append_cons. f_equal. by apply IH.
Qed.

(** A grapheme read at the cursor is the start of what is left of the word. *)
Lemma occurs_at_slice (token_lower : string) (current_index : nat) (g : string) :
  occurs_at token_lower current_index g ->
  slice_from current_index token_lower
  = g +:+ slice_from (current_index + String.length g) token_lower.
Proof.
  unfold occurs_at. revert current_index.
  induction token_lower as [|c s IH]; intros [|i]; simpl.
  - intros Hg. by apply (substring_prefix g EmptyString).
  - destruct (String.length g) eqn:E; intros <-; by destruct i.
  - intros Hg. by apply (substring_prefix g (String c s)).
  - apply IH.
Qed.

(** With [oov_characters] a [dict], the inner loop changes nothing in the
    state; it returns [res] followed by the phonemes of mappings that spell
    the rest of the word, or raises at a cursor no mapping accepts. *)
Lemma segment_dict (fuel : nat) (sound_mappings : list (string * string))
    (token_lower : string) (current_index : nat) (res : list string)
    (st : lexicon_run) (d : gmap string string) :
  oov_characters st = PyDict d ->
  current_index <= String.length token_lower ->
  (segment fuel sound_mappings token_lower current_index res st).1 = st
  /\ ((segment fuel sound_mappings token_lower current_index res st).2 = OutOfFuel
      \/ (segment fuel sound_mappings token_lower current_index res st).2
         = Raised (AttributeError "'dict' object has no attribute 'add'")
      \/ exists used,
           Forall (fun maps => maps ∈ sound_mappings) used
           /\ (segment fuel sound_mappings token_lower current_index res st).2
              = Returned (res ++ used.*2)
           /\ Str.join "" used.*1 = slice_from current_index token_lower).
Proof.
  intros Hoov. revert current_index res.
  induction fuel as [|fuel IH]; intros i res Hi.
  - simpl. destruct (Nat.ltb_spec i (String.length token_lower)); simpl; [by auto|].
    split; [done|]. right. right. exists []. rewrite app_nil_r.
    by rewrite slice_from_ge.
  - destruct (Nat.lt_ge_cases i (String.length token_lower)) as [Hlt|Hge].
    + destruct (first_match sound_mappings token_lower i) as [maps|] eqn:Hf.
      * rewrite segment_unfold, Hf by done.
        destruct (first_match_Some _ _ _ _ Hi Hf) as (before & after & Htable & Hocc & _).
        assert (i + String.length maps.1 <= String.length token_lower) as Hnext.
        { unfold occurs_at in Hocc. apply (f_equal String.length) in Hocc.
          rewrite substring_length in Hocc. lia. }
        destruct (IH (i + String.length maps.1) (res ++ [maps.2]) Hnext)
          as [Hst [Hout|[Hraise|(used & Hused & Hret & Hjoin)]]];
          (split; [done|]); [by left|by right; left|right; right].
        exists (maps :: used). split.
        { constructor; [|done]. rewrite Htable. apply elem_of_app. right. by left. }
        split; [by rewrite Hret, fmap_cons, <- app_assoc|].
        rewrite fmap_cons, join_empty_cons, Hjoin. symmetry. by apply occurs_at_slice.
      * rewrite (segment_unmatched_raises _ _ _ _ _ _ d) by done. by auto.
    + rewrite segment_end by done. split; [done|]. right. right. exists [].
      rewrite app_nil_r. by rewrite slice_from_ge.
Qed.

(** The outer loop with [oov_characters] a [dict]: it writes the entries of
    the words it gets through, in order, and stops at the first word the
    inner loop does not return from. *)
Lemma write_entries_dict (sound_mappings : list (string * string))
    (input_tokens : list string) (st : lexicon_run) (d : gmap string string) :
  oov_characters st = PyDict d ->
  exists written rest entries,
    input_tokens = written ++ rest
    /\ output_file (write_entries sound_mappings input_tokens st).1
       = output_file st ++ entries
    /\ oov_characters (write_entries sound_mappings input_tokens st).1 = PyDict d
    /\ stderr (write_entries sound_mappings input_tokens st).1 = stderr st
    /\ Forall2 (spelled_by sound_mappings) written entries
    /\ (((write_entries sound_mappings input_tokens st).2 = Returned tt /\ rest = [])
        \/ (((write_entries sound_mappings input_tokens st).2 = OutOfFuel
             \/ (write_entries sound_mappings input_tokens st).2
                = Raised (AttributeError "'dict' object has no attribute 'add'"))
            /\ rest <> [])).
Proof.
  revert st. induction input_tokens as [|token tokens IH]; intros st Hoov.
  { exists [], [], []. simpl. rewrite app_nil_r. do 5 (split; [by auto|]). by left. }
  simpl. rewrite run_bind.
  destruct (segment_dict (String.length (Str.lower token)) sound_mappings
              (Str.lower token) 0 [token] st d Hoov ltac:(lia)) as [Hst Hcases].
  destruct (segment _ _ _ _ _ st) as [st1 o]. simpl in Hst, Hcases. subst st1.
  destruct Hcases as [->|[->|(used & Hused & -> & Hjoin)]].
  - exists [], (token :: tokens), []. simpl. rewrite app_nil_r.
    do 5 (split; [by auto|]). right. by split; [left|].
  - exists [], (token :: tokens), []. simpl. rewrite app_nil_r.
    do 5 (split; [by auto|]). right. by split; [right|].
  - unfold write. rewrite run_modify.
    match goal with |- context [write_entries _ _ ?s] => set (st1 := s) end.
    destruct (IH st1 Hoov) as (written & rest & entries & -> & Hout & Ho & Herr & Hall & Hend).
    exists (token :: written), rest,
      ((Str.join " " (token :: used.*2) +:+ Str.nl) :: entries).
    split; [done|]. split; [by rewrite Hout; simpl; rewrite <- app_assoc|].
    split; [done|]. split; [done|]. split; [|done].
    constructor; [|done]. exists used. by repeat split.
Qed.

(** X3.  Every run of [generate_dictionary] ends: it returns, or it raises
    the [AttributeError] of [oov_characters.add]; the loops never go on for
    ever, since no grapheme of the table is empty.  Either way nothing is
    printed to [sys.stderr] and [oov_characters] is the empty [dict] it
    started as: no character is ever reported. *)
Theorem generate_dictionary_outcomes (input_file config_file : string) :
  ((generate_dictionary input_file config_file).2 = Returned tt
   \/ (generate_dictionary input_file config_file).2
      = Raised (AttributeError "'dict' object has no attribute 'add'"))
  /\ stderr (generate_dictionary input_file config_file).1 = []
  /\ oov_characters (generate_dictionary input_file config_file).1 = PyDict ∅.
Proof.
  pose proof (generate_dictionary_terminates input_file config_file) as Hterm.
  unfold generate_dictionary in *.
  destruct (parse_configs_returns config_file) as (collected & _ & Hp).
  rewrite Hp in *. unfold write in *. rewrite run_lift, !run_modify, run_bind in *.
  match goal with |- context [write_entries ?t ?w ?s] =>
    destruct (write_entries_dict t w s ∅ eq_refl)
      as (written & rest & entries & _ & _ & Hoov & Herr & _ & Hend);
    destruct (write_entries t w s) as [st1 o] end.
  simpl in *. destruct Hend as [[-> _]|[[->| ->] _]]; simpl in *.
  - rewrite run_gets in *. rewrite Hoov. simpl. by auto.
  - done.
  - by auto.
Qed.

(** X4.  What [generate_dictionary] leaves in the lexicon, whether it
    returns or raises: the two header lines, then the entries of the first
    words of the list, in the order of the list, each the word followed by
    the phonemes of table mappings whose graphemes, end to end, are the
    lower-cased word.  All the words have their entry exactly when the run
    returns. *)
Theorem generate_dictionary_lexicon (input_file config_file : string) :
  exists table written rest entries,
    parse_configs config_file = Returned table
    /\ parse_input input_file = written ++ rest
    /\ output_file (generate_dictionary input_file config_file).1
       = ["!SIL sil" +:+ Str.nl; "<UNK> spn" +:+ Str.nl] ++ entries
    /\ Forall2 (spelled_by table) written entries
    /\ ((generate_dictionary input_file config_file).2 = Returned tt <-> rest = []).
Proof.
  pose proof (generate_dictionary_terminates input_file config_file) as Hterm.
  unfold generate_dictionary in *.
  destruct (parse_configs_returns config_file) as (collected & _ & Hp).
  rewrite Hp in *. unfold write in *. rewrite run_lift, !run_modify, run_bind in *.
  match goal with |- context [write_entries ?t ?w ?s] =>
    destruct (write_entries_dict t w s ∅ eq_refl)
      as (written & rest & entries & Htok & Hout & _ & _ & Hall & Hend);
    destruct (write_entries t w s) as [st1 o] end.
  exists (sort_reverse grapheme_length collected), written, rest, entries.
  simpl in *. split; [done|]. split; [done|].
  destruct Hend as [[-> ->]|[[->| ->] Hrest]]; simpl in *.
  - rewrite run_gets. rewrite report_output.
    pose proof (report_returns (iterate (oov_characters st1)) st1) as Hrep.
    destruct (report _ _) as [st2 o2]. simpl in *. subst o2. by repeat split.
  - done.
  - repeat split; [done..| |]; [by intros [=]|by intros ->].
Qed.

Lemma single_line_join (l : list string) :
  Forall (fun w => single_line w = true) l -> single_line (Str.join " " l) = true.
Proof.
  unfold single_line. induction 1 as [|w l Hw Hl IH]; [done|].
  destruct l as [|w' l]; [done|].
  change (Str.join " " (w :: w' :: l)) with (w +:+ " " +:+ Str.join " " (w' :: l)).
  by rewrite !forallb_append, Hw, IH.
Qed.

(** X5.  One entry, one line: every string [generate_dictionary] writes to
    the lexicon ends with a line feed and holds no other. *)
Theorem generate_dictionary_one_entry_per_line (input_file config_file : string) :
  Forall (fun line => exists body, line = body +:+ Str.nl /\ single_line body = true)
    (output_file (generate_dictionary input_file config_file).1).
Proof.
  destruct (generate_dictionary_lexicon input_file config_file)
    as (table & written & rest & entries & Hp & Htok & -> & Hall & _).
  destruct (parse_configs_rules config_file) as (table' & Hp' & Hrules).
  rewrite Hp in Hp'. injection Hp' as <-.
  pose proof (parse_input_words input_file) as Hwords. rewrite Htok in Hwords.
  apply Forall_app in Hwords as [Hwords _].
  constructor; [by exists "!SIL sil"|]. constructor; [by exists "<UNK> spn"|].
  simpl. clear Htok. induction Hall as [|token entry written entries Hentry _ IH];
    [constructor|].
  apply Forall_cons_1 in Hwords as [(_ & _ & Htoken) Hwords].
  constructor; [|by apply IH]. destruct Hentry as (used & Hused & -> & _).
  eexists. split; [done|]. apply single_line_join. constructor; [done|].
  apply Forall_fmap. eapply List.Forall_impl; [|exact Hused]. simpl.
  intros maps Hin. rewrite List.Forall_forall in Hrules.
  by destruct (Hrules maps ltac:(by apply list_elem_of_In)) as (_ & _ & _ & _ & _ & ?).
Qed.

Lemma get_substring (s : string) (i : nat) (c : ascii) :
  String.get i s = Some c -> String.substring i 1 s = String c EmptyString.
Proof.
  revert i. induction s as [|a s IH]; intros [|i]; simpl; try done.
  - intros [= ->]. by destruct s.
  - apply IH.
Qed.

Lemma segment_no_raise (fuel : nat) (sound_mappings : list (string * string))
    (token_lower : string) (current_index : nat) (res : list string) (st : lexicon_run) :
  (forall j, j < String.length token_lower ->
             first_match sound_mappings token_lower j <> None) ->
  forall e, (segment fuel sound_mappings token_lower current_index res st).2 <> Raised e.
Proof.
  intros Hcov e. revert current_index res.
  induction fuel as [|fuel IH]; intros i res.
  - simpl. by destruct (i <? String.length token_lower).
  - destruct (Nat.lt_ge_cases i (String.length token_lower)) as [Hlt|Hge];
      [|by rewrite segment_end].
    rewrite segment_unfold by done. specialize (Hcov i Hlt).
    destruct (first_match _ _ _); [apply IH|done].
Qed.

(** X6.  A table that has every single character of the (lower-cased) words
    among its graphemes is enough for [generate_dictionary] to return, and
    so to write the whole lexicon. *)
Theorem generate_dictionary_covered
    (input_file config_file : string) (table : list (string * string)) :
  parse_configs config_file = Returned table ->
  (forall token i c,
      token ∈ parse_input input_file ->
      String.get i (Str.lower token) = Some c ->
      exists phoneme, (String c EmptyString, phoneme) ∈ table) ->
  (generate_dictionary input_file config_file).2 = Returned tt.
Proof.
  intros Hp Hcov.
  destruct (generate_dictionary_outcomes input_file config_file) as [[Hret|Hraise] _];
    [done|exfalso].
  revert Hraise. unfold generate_dictionary. rewrite Hp.
  unfold write. rewrite run_lift, !run_modify, run_bind.
  match goal with |- context [write_entries ?t ?w ?s] => generalize s end.
  induction (parse_input input_file) as [|token tokens IH]; intros st.
  { simpl. rewrite run_gets.
    pose proof (report_returns (iterate (oov_characters st)) st) as Hrep.
    destruct (report _ _) as [st2 o2]. simpl in *. by subst o2. }
  simpl. rewrite run_bind.
  pose proof (segment_no_raise (String.length (Str.lower token)) table
                (Str.lower token) 0 [token] st) as Hseg.
  destruct (segment _ _ _ _ _ st) as [st1 [res|e|]]; simpl in *.
  - unfold write. rewrite run_modify. apply IH.
    intros t i c Ht. apply Hcov. by right.
  - intros _. refine (Hseg _ e eq_refl).
    intros j Hj Hnone. destruct (get_lt _ _ Hj) as [c Hc].
    destruct (Hcov token j c ltac:(by left) Hc) as [phoneme Hin].
    pose proof (proj1 (first_match_None table (Str.lower token) j ltac:(lia)) Hnone)
      as Hnone'.
    apply (Hnone' _ Hin). by apply get_substring.
  - done.
Qed.

Lemma generate_dictionary_covered_witness :
  (generate_dictionary (lines ["Go"; "stop"])
     (lines ["g G"; "o O"; "s S"; "t T"; "p P"])).2 = Returned tt.
Proof.
  apply (generate_dictionary_covered _ _
           [("g", "G"); ("o", "O"); ("s", "S"); ("t", "T"); ("p", "P")]).
  - vm_compute. reflexivity.
  - intros token i c Hin Hget.
    assert (c ∈ ["g"; "o"; "s"; "t"; "p"]%char) as Hc.
    { change (parse_input (lines ["Go"; "stop"])) with ["Go"; "stop"] in Hin.
      apply elem_of_cons in Hin as [->|Hin%list_elem_of_singleton]; [|subst token];
        do 5 (destruct i as [|i];
              [vm_compute in Hget;
               first [discriminate Hget
                     |injection Hget as <-; by apply (bool_decide_unpack _); vm_compute]|]);
        by vm_compute in Hget. }
    repeat (apply elem_of_cons in Hc as [->|Hc];
            [eexists; by repeat first [left|right]|]).
    by apply elem_of_nil in Hc.
Defined.

Lemma filter_split {A : Type} (P : A -> Prop) `{!forall x, Decision (P x)}
    (l l1 : list A) (x : A) (l2 : list A) :
  filter P l = l1 ++ x :: l2 ->
  exists l1' l2', l = l1' ++ x :: l2' /\ filter P l1' = l1 /\ filter P l2' = l2.
Proof.
  revert l1. induction l as [|y l IH]; intros l1; [by destruct l1|].
  rewrite filter_cons. case_decide as Hy.
  - destruct l1 as [|z l1]; simpl.
    + intros [= -> <-]. by exists [], l.
    + intros [= -> Hl]. destruct (IH _ Hl) as (a & b & -> & <- & <-).
      exists (z :: a), b. by rewrite filter_cons_True.
  - intros Hl. destruct (IH _ Hl) as (a & b & -> & <- & <-).
    exists (y :: a), b. by rewrite filter_cons_False.
Qed.

(** X7.  When several lines of the config give the same grapheme, the first
    of them is the one the segmenter uses: the mapping accepted at a cursor
    stands, among the mappings as the file lists them, before which no
    mapping has its grapheme. *)
Theorem first_rule_of_a_grapheme_wins
    (config_file : string) (collected table : list (string * string))
    (token_lower : string) (current_index : nat) (maps : string * string) :
  collect_mappings (Str.readlines config_file) = Returned collected ->
  parse_configs config_file = Returned table ->
  current_index <= String.length token_lower ->
  first_match table token_lower current_index = Some maps ->
  exists before after,
    collected = before ++ maps :: after
    /\ Forall (fun m => m.1 <> maps.1) before.
Proof.
  intros Hc Hp Hi Hf. unfold parse_configs in Hp. rewrite Hc in Hp.
  injection Hp as <-.
  destruct (first_match_Some _ _ _ _ Hi Hf) as (b & a & Htable & Hocc & Hb).
  pose proof (sort_reverse_stable grapheme_length (String.length maps.1) collected)
    as Hstable.
  rewrite Htable, list.filter_app, filter_cons_True in Hstable by done.
  symmetry in Hstable.
  destruct (filter_split _ _ _ _ _ Hstable) as (before & after & -> & Hbefore & _).
  exists before, after. split; [done|].
  apply list.Forall_forall. intros m Hm Hsame.
  assert (m ∈ filter (fun y => grapheme_length y = String.length maps.1) before) as Hin.
  { apply list_elem_of_filter. split; [|done]. unfold grapheme_length. by rewrite Hsame. }
  rewrite Hbefore in Hin. apply list_elem_of_filter in Hin as [_ Hin].
  rewrite List.Forall_forall in Hb.
  apply (Hb m); [by apply list_elem_of_In|]. by rewrite Hsame.
Qed.

Lemma first_rule_of_a_grapheme_wins_witness :
  exists before after,
    [("a", "A1"); ("ab", "X"); ("a", "A2")] = before ++ ("a", "A1") :: after
    /\ Forall (fun m => m.1 <> "a") before.
Proof.
  apply (first_rule_of_a_grapheme_wins (lines ["a A1"; "ab X"; "a A2"])
           [("a", "A1"); ("ab", "X"); ("a", "A2")]
           [("ab", "X"); ("a", "A1"); ("a", "A2")] "ac" 0 ("a", "A1")).
  - vm_compute. reflexivity.
  - vm_compute. reflexivity.
  - simpl. lia.
  - vm_compute. reflexivity.
Defined.

(** ** What [clean_utterance] keeps *)

Lemma clean_words_loop_counts (remove_english : bool) (english_words : option (gset string))
    (punctuation : option string) (special_cases : option (list string))
    (words clean_words : list string) (count : Z) (kept : list string) (english : Z) :
  clean_words_loop remove_english english_words punctuation special_cases
    words clean_words count = Returned (kept, english) ->
  (0 <= count)%Z ->
  (0 <= english)%Z
  /\ (Z.of_nat (length kept) + english
      <= Z.of_nat (length clean_words) + count + Z.of_nat (length words))%Z
  /\ (remove_english = false -> count = 0%Z -> english = 0%Z).
Proof.
  revert clean_words count. induction words as [|word rest IH]; intros cw count.
  { simpl. intros [= <- <-]. lia. }
  simpl length. intros Hrun Hcount. simpl in Hrun.
  assert (forall cw' count',
            clean_words_loop remove_english english_words punctuation special_cases
              rest cw' count' = Returned (kept, english) ->
            (0 <= count')%Z ->
            (Z.of_nat (length cw') + count' <= Z.of_nat (length cw) + count + 1)%Z ->
            (remove_english = false -> count = 0%Z -> count' = 0%Z) ->
            (0 <= english)%Z
            /\ (Z.of_nat (length kept) + english
                <= Z.of_nat (length cw) + count + Z.of_nat (S (length rest)))%Z
            /\ (remove_english = false -> count = 0%Z -> english = 0%Z)) as Hnext.
  { intros cw' count' Hr Hc Hle Hz. destruct (IH _ _ Hr Hc) as (? & ? & Hz').
    split; [done|]. split; [lia|]. auto. }
  destruct (is_special_case _ _); [apply (Hnext _ _ Hrun); lia|].
  destruct (bool_decide _); [injection Hrun as <- <-; simpl; lia|].
  destruct (_ && negb _); [injection Hrun as <- <-; simpl; lia|].
  destruct remove_english; simpl in Hrun.
  - destruct (3 <? _) in Hrun;
      [destruct (in_english_words _ _) as [[]| |]; simpl in Hrun; try done|];
      apply (Hnext _ _ Hrun); rewrite ?length_app; simpl; lia.
  - apply (Hnext _ _ Hrun); rewrite ?length_app; simpl; lia.
Qed.

(** X8.  The count [clean_utterance] returns is not negative, the words kept
    and the words counted as English are no more than the tokens of the
    transcript, and nothing is counted when [remove_english] is off. *)
Theorem clean_utterance_counts (utterance : gmap string json) (transcript : string)
    (remove_english : bool) (english_words : option (gset string))
    (punctuation : option string) (special_cases : option (list string))
    (clean_words : list string) (english_word_count : Z) :
  utterance !! "transcript" = Some (JStr transcript) ->
  clean_utterance utterance remove_english english_words punctuation special_cases
  = Returned (clean_words, english_word_count) ->
  (0 <= english_word_count)%Z
  /\ (Z.of_nat (length clean_words) + english_word_count
      <= Z.of_nat (length (Str.split (Str.lower transcript))))%Z
  /\ (remove_english = false -> english_word_count = 0%Z).
Proof.
  intros Hget. unfold clean_utterance, transcript_lower. rewrite Hget. simpl.
  intros Hrun. destruct (clean_words_loop_counts _ _ _ _ _ _ _ _ _ Hrun ltac:(done))
    as (? & ? & Hz).
  split; [done|]. split; [simpl in *; lia|]. auto.
Qed.

Lemma clean_utterance_counts_witness :
  (0 <= 1)%Z
  /\ (Z.of_nat (length ["kia"; "ora"]) + 1
      <= Z.of_nat (length (Str.split (Str.lower "Kia ora, FRIEND"))))%Z
  /\ (true = false -> 1%Z = 0%Z).
Proof.
  apply (clean_utterance_counts {[ "transcript" := JStr "Kia ora, FRIEND" ]}
           "Kia ora, FRIEND" true (Some {[ "friend" ]}) (Some punctuation_to_remove)
           (Some ["<silence>"]) ["kia"; "ora"] 1).
  - reflexivity.
  - vm_compute. reflexivity.
Defined.

(** Each word kept is a token of the list, its punctuation removed. *)
Lemma clean_words_loop_kept (remove_english : bool) (english_words : option (gset string))
    (punctuation : option string) (special_cases : option (list string))
    (words clean_words : list string) (count : Z) (kept : list string) (english : Z) :
  clean_words_loop remove_english english_words punctuation special_cases
    words clean_words count = Returned (kept, english) ->
  Forall (fun w => w ∈ clean_words
                   \/ exists word, word ∈ words /\ w = unmarked punctuation word) kept.
Proof.
  revert clean_words count. induction words as [|word rest IH]; intros cw count.
  { simpl. intros [= <- <-]. apply list.Forall_forall. auto. }
  simpl. intros Hrun.
  assert (forall cw' count',
            clean_words_loop remove_english english_words punctuation special_cases
              rest cw' count' = Returned (kept, english) ->
            (forall w, w ∈ cw' -> w ∈ cw \/ w = unmarked punctuation word) ->
            Forall (fun w => w ∈ cw
                             \/ exists word0, word0 ∈ word :: rest
                                              /\ w = unmarked punctuation word0) kept)
    as Hnext.
  { intros cw' count' Hr Hcw'. eapply list.Forall_impl; [apply (IH _ _ Hr)|].
    intros w [Hw|(word0 & Hin & ->)].
    - destruct (Hcw' w Hw) as [?| ->]; [by left|]. right. exists word. by split; [left|].
    - right. exists word0. by split; [right|]. }
  assert (forall w, w ∈ cw ++ [unmarked punctuation word] ->
                    w ∈ cw \/ w = unmarked punctuation word) as Happ.
  { intros w [?|Hw%list_elem_of_singleton]%elem_of_app; auto. }
  destruct (is_special_case _ _); [apply (Hnext _ _ Hrun); auto|].
  destruct (bool_decide _); [injection Hrun as <- <-; constructor|].
  destruct (_ && negb _); [injection Hrun as <- <-; constructor|].
  fold (unmarked punctuation word) in Hrun.
  destruct (remove_english && _); [|by apply (Hnext _ _ Hrun)].
  destruct (in_english_words _ _) as [[]| |]; simpl in Hrun; try done;
    apply (Hnext _ _ Hrun); auto.
Qed.

Lemma forallb_andb (p q : ascii -> bool) (s : string) :
  Str.forallb (fun c => p c && q c) s = Str.forallb p s && Str.forallb q s.
Proof.
  induction s as [|c s IH]; simpl; [done|]. rewrite IH.
  destruct (p c), (q c), (Str.forallb p s); done.
Qed.

Lemma forallb_remove_char (p : ascii -> bool) (mark : ascii) (s : string) :
  Str.forallb p s = true -> Str.forallb p (Str.remove_char mark s) = true.
Proof.
  induction s as [|c s IH]; simpl; [done|].
  intros [Hc Hs]%andb_true_iff. destruct (Ascii.eqb c mark); simpl; [auto|].
  by rewrite Hc, IH.
Qed.

Lemma forallb_remove_marks (p : ascii -> bool) (marks word : string) :
  Str.forallb p word = true -> Str.forallb p (remove_marks marks word) = true.
Proof.
  revert word. induction marks as [|mark rest IH]; intros word Hw; simpl; [done|].
  by apply IH, forallb_remove_char.
Qed.

Lemma remove_char_gone (mark : ascii) (s : string) :
  Str.forallb (fun c => negb (Ascii.eqb c mark)) (Str.remove_char mark s) = true.
Proof.
  induction s as [|c s IH]; simpl; [done|].
  destruct (Ascii.eqb c mark) eqn:E; simpl; [done|]. by rewrite E.
Qed.

(** [replace] after [replace] leaves none of the marks. *)
Lemma remove_marks_free (marks word : string) :
  free_of marks (remove_marks marks word) = true.
Proof.
  unfold free_of, contains. revert word.
  induction marks as [|mark rest IH]; intros word; simpl.
  - by induction word as [|c w IHw].
  - assert (Str.forallb
              (fun c => negb (Ascii.eqb mark c || Str.existsb (fun x => Ascii.eqb x c) rest))
              (remove_marks rest (Str.remove_char mark word))
            = Str.forallb (fun c => negb (Ascii.eqb c mark)
                                    && negb (Str.existsb (fun x => Ascii.eqb x c) rest))
                (remove_marks rest (Str.remove_char mark word))) as ->.
    { generalize (remove_marks rest (Str.remove_char mark word)).
      induction s as [|c s IHs]; simpl; [done|].
      by rewrite IHs, negb_orb, (Ascii.eqb_sym mark c). }
    rewrite forallb_andb, IH, andb_true_r.
    apply forallb_remove_marks, remove_char_gone.
Qed.

Lemma split_ws_aux_no_whitespace (s cur : string) :
  no_whitespace cur = true ->
  Forall (fun w => no_whitespace w = true) (Str.split_ws_aux s cur).
Proof.
  unfold no_whitespace. revert cur. induction s as [|c s IH]; intros cur Hcur; simpl.
  - destruct cur; repeat constructor. done.
  - destruct (Str.isspace c) eqn:E.
    + destruct cur; [by apply IH|]. constructor; [done|by apply IH].
    + apply IH. rewrite forallb_append, Hcur. simpl. by rewrite E.
Qed.

Lemma split_ws_aux_forallb (p : ascii -> bool) (s cur : string) :
  Str.forallb p s = true -> Str.forallb p cur = true ->
  Forall (fun w => Str.forallb p w = true) (Str.split_ws_aux s cur).
Proof.
  revert cur. induction s as [|c s IH]; intros cur Hs Hcur; simpl.
  - destruct cur; repeat constructor. done.
  - simpl in Hs. apply andb_true_iff in Hs as [Hc Hs].
    destruct (Str.isspace c).
    + destruct cur; [by apply IH|]. constructor; [done|by apply IH].
    + apply IH; [done|]. rewrite forallb_append, Hcur. simpl. by rewrite Hc.
Qed.

(** Every word kept comes from a word of the lower-cased transcript. *)
Lemma clean_utterance_kept (utterance : gmap string json)
    (remove_english : bool) (english_words : option (gset string))
    (punctuation : option string) (special_cases : option (list string))
    (clean_words : list string) (english_word_count : Z) :
  clean_utterance utterance remove_english english_words punctuation special_cases
  = Returned (clean_words, english_word_count) ->
  exists transcript,
    utterance !! "transcript" = Some (JStr transcript)
    /\ Forall (fun w => exists word, word ∈ Str.split (Str.lower transcript)
                                     /\ w = unmarked punctuation word) clean_words.
Proof.
  unfold clean_utterance.
  destruct (utterance !! "transcript") as [[s| |]|] eqn:E;
    unfold transcript_lower; rewrite E; try done.
  simpl. intros Hrun. apply clean_words_loop_kept in Hrun.
  exists s. split; [done|].
  eapply list.Forall_impl; [exact Hrun|]. simpl.
  intros w [Hw|Hw]; [by apply elem_of_nil in Hw|done].
Qed.

Lemma kept_words_no_whitespace (utterance : gmap string json)
    (remove_english : bool) (english_words : option (gset string))
    (punctuation : option string) (special_cases : option (list string))
    (clean_words : list string) (english_word_count : Z) :
  clean_utterance utterance remove_english english_words punctuation special_cases
  = Returned (clean_words, english_word_count) ->
  Forall (fun w => no_whitespace w = true) clean_words.
Proof.
  intros (s & _ & Hkept)%clean_utterance_kept.
  eapply list.Forall_impl; [exact Hkept|]. simpl. intros w (word & Hin & ->).
  pose proof (split_ws_aux_no_whitespace (Str.lower s) EmptyString eq_refl) as Hsplit.
  rewrite list.Forall_forall in Hsplit. specialize (Hsplit word Hin).
  destruct punctuation as [marks|]; simpl; [by apply forallb_remove_marks|done].
Qed.

Lemma kept_words_free (utterance : gmap string json)
    (remove_english : bool) (english_words : option (gset string))
    (marks : string) (special_cases : option (list string))
    (clean_words : list string) (english_word_count : Z) :
  clean_utterance utterance remove_english english_words (Some marks) special_cases
  = Returned (clean_words, english_word_count) ->
  Forall (fun w => free_of marks w = true) clean_words.
Proof.
  intros (s & _ & Hkept)%clean_utterance_kept.
  eapply list.Forall_impl; [exact Hkept|]. simpl. intros w (word & Hin & ->).
  apply remove_marks_free.
Qed.

(** X9.  No word [clean_utterance] keeps holds a whitespace character, nor,
    when punctuation is given, one of its marks. *)
Theorem clean_utterance_words_clean (utterance : gmap string json)
    (remove_english : bool) (english_words : option (gset string))
    (marks : string) (special_cases : option (list string))
    (clean_words : list string) (english_word_count : Z) :
  clean_utterance utterance remove_english english_words (Some marks) special_cases
  = Returned (clean_words, english_word_count) ->
  Forall (fun w => free_of marks w = true /\ no_whitespace w = true) clean_words.
Proof.
  intros Hrun. apply list.Forall_and. split.
  - by eapply kept_words_free.
  - by eapply kept_words_no_whitespace.
Qed.

Lemma clean_utterance_words_clean_witness :
  Forall (fun w => free_of punctuation_to_remove w = true /\ no_whitespace w = true)
    ["kia"; "ora"; ""; "its"].
Proof.
  apply (clean_utterance_words_clean {[ "transcript" := JStr "Kia ora, ... it's" ]}
           false (Some ∅) punctuation_to_remove (Some ["<silence>"])
           ["kia"; "ora"; ""; "its"] 0).
  vm_compute. reflexivity.
Defined.

Lemma lower_char_idem (c : ascii) : Str.lower_char (Str.lower_char c) = Str.lower_char c.
Proof. by destruct c as [[] [] [] [] [] [] [] []]. Qed.

Lemma lower_forallb (s : string) :
  Str.forallb (fun c => Ascii.eqb (Str.lower_char c) c) (Str.lower s) = true.
Proof.
  induction s as [|c s IH]; simpl; [done|].
  by rewrite lower_char_idem, Ascii.eqb_refl, IH.
Qed.

Lemma forallb_lower (s : string) :
  Str.forallb (fun c => Ascii.eqb (Str.lower_char c) c) s = true -> Str.lower s = s.
Proof.
  induction s as [|c s IH]; simpl; [done|].
  intros [Hc Hs]%andb_true_iff. apply Ascii.eqb_eq in Hc. by rewrite Hc, IH.
Qed.

Lemma kept_words_lower (utterance : gmap string json)
    (remove_english : bool) (english_words : option (gset string))
    (punctuation : option string) (special_cases : option (list string))
    (clean_words : list string) (english_word_count : Z) :
  clean_utterance utterance remove_english english_words punctuation special_cases
  = Returned (clean_words, english_word_count) ->
  Forall (fun w => Str.forallb (fun c => Ascii.eqb (Str.lower_char c) c) w = true)
    clean_words.
Proof.
  intros (s & _ & Hkept)%clean_utterance_kept.
  eapply list.Forall_impl; [exact Hkept|]. simpl. intros w (word & Hin & ->).
  pose proof (split_ws_aux_forallb _ (Str.lower s) EmptyString
                (lower_forallb s) eq_refl) as Hsplit.
  rewrite list.Forall_forall in Hsplit. specialize (Hsplit word Hin).
  destruct punctuation as [marks|]; simpl; [by apply forallb_remove_marks|done].
Qed.

(** X10.  Every word [clean_utterance] keeps is in lower case: lowering it
    again changes nothing. *)
Theorem clean_utterance_words_lower (utterance : gmap string json)
    (remove_english : bool) (english_words : option (gset string))
    (punctuation : option string) (special_cases : option (list string))
    (clean_words : list string) (english_word_count : Z) :
  clean_utterance utterance remove_english english_words punctuation special_cases
  = Returned (clean_words, english_word_count) ->
  Forall (fun w => Str.lower w = w) clean_words.
Proof.
  intros Hrun%kept_words_lower.
  eapply list.Forall_impl; [exact Hrun|]. apply forallb_lower.
Qed.

Lemma clean_utterance_words_lower_witness :
  Forall (fun w => Str.lower w = w) ["kia"; "ora"; "e"; "hoa"].
Proof.
  apply (clean_utterance_words_lower {[ "transcript" := JStr "KIA Ora e HOA" ]}
           true (Some {[ "house" ]}) None None ["kia"; "ora"; "e"; "hoa"] 0).
  vm_compute. reflexivity.
Defined.

Lemma split_ws_aux_word (w s cur : string) :
  no_whitespace w = true ->
  Str.split_ws_aux (w +:+ s) cur = Str.split_ws_aux s (cur +:+ w).
Proof.
  unfold no_whitespace. revert cur. induction w as [|c w IH]; intros cur Hw.
  - by rewrite append_nil_l, append_nil_r.
  - simpl in Hw. apply andb_true_iff in Hw as [Hc Hw]. apply negb_true_iff in Hc.
    rewrite append_cons. simpl. rewrite Hc, IH by done.
    by rewrite append_assoc.
Qed.

Lemma split_join (words : list string) :
  Forall (fun w => no_whitespace w = true) words ->
  Str.split (Str.join " " words) = List.filter Str.truthy words.
Proof.
  unfold Str.split. induction 1 as [|w rest Hw Hrest IH]; [done|].
  destruct rest as [|w' rest].
  - simpl. rewrite <- (append_nil_r w) at 1.
    rewrite split_ws_aux_word by done. by destruct w.
  - change (Str.join " " (w :: w' :: rest))
      with (w +:+ " " +:+ Str.join " " (w' :: rest)).
    rewrite split_ws_aux_word by done. rewrite append_cons, append_nil_l.
    cbn [Str.split_ws_aux]. change (Str.isspace " ") with true. cbv iota.
    rewrite IH. by destruct w.
Qed.

Lemma split_lstrip (s : string) : Str.split (Str.lstrip s) = Str.split s.
Proof.
  unfold Str.split. induction s as [|c s IH]; simpl; [done|].
  by destruct (Str.isspace c) eqn:E; simpl; rewrite ?E.
Qed.

Lemma split_ws_aux_rstrip (s cur : string) :
  Str.split_ws_aux (Str.rstrip s) cur = Str.split_ws_aux s cur.
Proof.
  revert cur. induction s as [|c s IH]; intros cur; [done|].
  simpl. destruct (Str.rstrip s) as [|c' r] eqn:E.
  - destruct (Str.isspace c) eqn:Hc; simpl; rewrite ?Hc.
    + rewrite <- (IH EmptyString). by destruct cur.
    + by rewrite <- IH.
  - simpl. destruct (Str.isspace c) eqn:Hc; rewrite <- !IH; simpl; done.
Qed.

Lemma split_strip (s : string) : Str.split (Str.strip s) = Str.split s.
Proof.
  unfold Str.strip. rewrite <- (split_lstrip s). apply split_ws_aux_rstrip.
Qed.

(** X11.  The transcript made of the words [clean_utterance] keeps, joined
    by spaces and stripped, splits again into those words, the empty ones
    left out. *)
Theorem cleaned_transcript_splits_back (utterance : gmap string json)
    (remove_english : bool) (english_words : option (gset string))
    (punctuation : option string) (special_cases : option (list string))
    (clean_words : list string) (english_word_count : Z) :
  clean_utterance utterance remove_english english_words punctuation special_cases
  = Returned (clean_words, english_word_count) ->
  Str.split (Str.strip (Str.join " " clean_words)) = List.filter Str.truthy clean_words.
Proof.
  intros Hrun. rewrite split_strip. apply split_join.
  by eapply kept_words_no_whitespace.
Qed.

Lemma cleaned_transcript_splits_back_witness :
  Str.split (Str.strip (Str.join " " ["kia"; "ora"; ""; "its"])) = ["kia"; "ora"; "its"].
Proof.
  apply (cleaned_transcript_splits_back
           {[ "transcript" := JStr "Kia ora, ... it's" ]}
           false (Some ∅) (Some punctuation_to_remove) (Some ["<silence>"])
           ["kia"; "ora"; ""; "its"] 0).
  vm_compute. reflexivity.
Defined.

(** ** Further facts about [clean_json_data] *)

Lemma is_valid_utterance_true (clean_words : list string) (count : Z)
    (remove_english use_langid : bool) (langid_identifier : option LanguageIdentifier)
    (st st' : cleaner_state) :
  is_valid_utterance clean_words count remove_english use_langid langid_identifier st
  = (st', Returned true) ->
  Str.strip (Str.join " " clean_words) <> EmptyString.
Proof.
  unfold is_valid_utterance. destruct (String.eqb _ _) eqn:E; [done|].
  intros _. by apply String.eqb_neq in E.
Qed.

Lemma is_valid_utterance_empty (clean_words : list string) (count : Z)
    (remove_english use_langid : bool) (langid_identifier : option LanguageIdentifier)
    (st : cleaner_state) :
  Str.strip (Str.join " " clean_words) = EmptyString ->
  is_valid_utterance clean_words count remove_english use_langid langid_identifier st
  = (st, Returned false).
Proof. unfold is_valid_utterance. by intros ->. Qed.

Lemma is_valid_utterance_trace (clean_words : list string) (count : Z)
    (remove_english use_langid : bool) (langid_identifier : option LanguageIdentifier)
    (st : cleaner_state) :
  exists asked,
    trace (is_valid_utterance clean_words count remove_english use_langid
             langid_identifier st).1 = trace st ++ (Classify <$> asked)
    /\ length asked <= 1
    /\ (remove_english && use_langid = false -> asked = [])
    /\ Forall (fun text => text <> EmptyString /\ Str.strip text = text) asked.
Proof.
  assert (forall st' : cleaner_state, trace st' = trace st ->
            exists asked,
              trace st' = trace st ++ (Classify <$> asked)
              /\ length asked <= 1
              /\ (remove_english && use_langid = false -> asked = [])
              /\ Forall (fun text => text <> EmptyString /\ Str.strip text = text) asked)
    as Hnone.
  { intros st' ->. exists []. simpl. rewrite app_nil_r.
    split; [done|]. split; [lia|]. split; [done|constructor]. }
  unfold is_valid_utterance. destruct (String.eqb _ _) eqn:E; [by apply Hnone|].
  apply String.eqb_neq in E.
  rewrite run_bind. unfold lift.
  destruct (mostly_english _ _ _) as [[]| |]; try by apply Hnone.
  destruct (remove_english && use_langid); [|by apply Hnone].
  destruct langid_identifier as [identifier|]; [|by apply Hnone].
  exists [Str.strip (Str.join " " clean_words)].
  unfold emit. rewrite run_modify.
  destruct (classify _ _) as [lang prob].
  assert (Forall (fun text => text <> EmptyString /\ Str.strip text = text)
            [Str.strip (Str.join " " clean_words)]).
  { repeat constructor; [done|apply strip_strip]. }
  by destruct (_ && _).
Qed.

Lemma forallb_join (p : ascii -> bool) (words : list string) :
  p " "%char = true ->
  Forall (fun w => Str.forallb p w = true) words ->
  Str.forallb p (Str.join " " words) = true.
Proof.
  intros Hp. induction 1 as [|w rest Hw Hrest IH]; [done|].
  destruct rest as [|w' rest]; [done|].
  change (Str.join " " (w :: w' :: rest)) with (w +:+ " " +:+ Str.join " " (w' :: rest)).
  rewrite !forallb_append, Hw, IH. simpl. by rewrite Hp.
Qed.

(** The text written for the words [clean_utterance] keeps. *)
Lemma cleaned_text_clean (utterance : gmap string json)
    (remove_english : bool) (english_words : option (gset string))
    (special_cases : option (list string))
    (clean_words : list string) (english_word_count : Z) :
  clean_utterance utterance remove_english english_words (Some punctuation_to_remove)
    special_cases = Returned (clean_words, english_word_count) ->
  Str.strip (Str.join " " clean_words) <> EmptyString ->
  clean_transcript (Str.strip (Str.join " " clean_words)).
Proof.
  intros Hrun Hne. split; [done|]. split; [apply strip_strip|]. split.
  - apply forallb_lower, forallb_strip, forallb_join; [done|].
    by eapply kept_words_lower.
  - apply forallb_strip, forallb_join; [done|].
    by eapply kept_words_free.
Qed.

Section CleanLoopMore.
Context (remove_english use_langid : bool) (english_words : gset string)
        (langid_identifier : option LanguageIdentifier).

Local Abbreviation loop := (clean_loop remove_english use_langid english_words
                              langid_identifier).

(** The records returned hold clean transcripts, also when a record is
    listed more than once. *)
Lemma clean_loop_clean (json_data cleaned_data : list loc) (st st' : cleaner_state)
    (out : list loc) :
  loop json_data cleaned_data st = (st', Returned out) ->
  (forall a, a ∈ cleaned_data -> holds_clean_transcript (store st a)) ->
  forall a, a ∈ out -> holds_clean_transcript (store st' a).
Proof.
  revert cleaned_data st. induction json_data as [|u rest IH]; intros acc st.
  { simpl. by intros [= <- <-]. }
  rewrite clean_loop_cons.
  destruct (clean_utterance _ _ _ _ _) as [[cw n]| |] eqn:Hclean; try done.
  pose proof (is_valid_utterance_store cw n remove_english use_langid
                langid_identifier st) as Hst.
  simpl. destruct (is_valid_utterance _ _ _ _ _ st) as [st1 [[]| |]] eqn:Hvalid;
    simpl in Hst; try done.
  - intros Hrun Hacc. apply (IH _ _ Hrun). simpl. intros a Ha.
    destruct (decide (u = a)) as [->|Hne].
    + rewrite fn_lookup_insert. eexists. rewrite lookup_insert_eq. split; [done|].
      eapply cleaned_text_clean; [done|]. by eapply is_valid_utterance_true.
    + rewrite fn_lookup_insert_ne by done. rewrite Hst. apply Hacc.
      apply elem_of_app in Ha as [Ha|Ha]; [done|].
      apply list_elem_of_singleton in Ha. by subst.
  - intros Hrun Hacc. apply (IH _ _ Hrun). intros a Ha. rewrite Hst. by apply Hacc.
Qed.

(** A record the cleaning leaves no text of is never returned. *)
Lemma clean_loop_empty (json_data cleaned_data : list loc) (st st' : cleaner_state)
    (out : list loc) (a : loc) (clean_words : list string) (count : Z) :
  loop json_data cleaned_data st = (st', Returned out) ->
  clean_utterance (store st a) remove_english (Some english_words)
    (Some punctuation_to_remove) (Some ["<silence>"]) = Returned (clean_words, count) ->
  Str.strip (Str.join " " clean_words) = EmptyString ->
  a ∉ cleaned_data ->
  a ∉ out.
Proof.
  intros Hrun Hclean Hempty. revert cleaned_data st Hrun Hclean.
  induction json_data as [|u rest IH]; intros acc st.
  { simpl. by intros [= <- <-]. }
  rewrite clean_loop_cons.
  destruct (decide (u = a)) as [->|Hne].
  - intros Hrun Hclean. rewrite Hclean in Hrun. simpl in Hrun.
    rewrite is_valid_utterance_empty in Hrun by done. by eapply IH.
  - destruct (clean_utterance (store st u) _ _ _ _) as [[cw n]| |]; try done.
    pose proof (is_valid_utterance_store cw n remove_english use_langid
                  langid_identifier st) as Hst.
    simpl. destruct (is_valid_utterance _ _ _ _ _ st) as [st1 [[]| |]];
      simpl in Hst; try done.
    + intros Hrun Hclean Hacc. eapply IH; [exact Hrun| |].
      * simpl. rewrite fn_lookup_insert_ne by done. by rewrite Hst.
      * intros [Ha|Ha]%elem_of_app; [done|].
        apply list_elem_of_singleton in Ha. by subst.
    + intros Hrun Hclean Hacc. eapply IH; [exact Hrun| |done]. by rewrite Hst.
Qed.

(** The calls of the loop: at most one [classify] for each reference, and
    none unless English is removed with langid. *)
Lemma clean_loop_trace (json_data cleaned_data : list loc) (st : cleaner_state) :
  exists asked,
    trace (loop json_data cleaned_data st).1 = trace st ++ (Classify <$> asked)
    /\ length asked <= length json_data
    /\ (remove_english && use_langid = false -> asked = [])
    /\ Forall (fun text => text <> EmptyString /\ Str.strip text = text) asked.
Proof.
  revert cleaned_data st. induction json_data as [|u rest IH]; intros acc st.
  { exists []. simpl. rewrite app_nil_r. split; [done|]. split; [lia|].
    split; [done|constructor]. }
  assert (exists asked,
             trace st = trace st ++ (Classify <$> asked)
             /\ length asked <= length (u :: rest)
             /\ (remove_english && use_langid = false -> asked = [])
             /\ Forall (fun text => text <> EmptyString /\ Str.strip text = text) asked)
    as Hnone.
  { exists []. simpl. rewrite app_nil_r. split; [done|]. split; [lia|].
    split; [done|constructor]. }
  rewrite clean_loop_cons.
  destruct (clean_utterance _ _ _ _ _) as [[cw n]| |]; try done.
  destruct (is_valid_utterance_trace cw n remove_english use_langid
              langid_identifier st) as (asked1 & Htrace & Hlen & Hoff & Hasked).
  simpl. destruct (is_valid_utterance _ _ _ _ _ st) as [st1 [[]| |]]; simpl in Htrace.
  - match goal with
    | |- context [loop rest ?acc' ?st'] =>
        destruct (IH acc' st') as (asked2 & Htrace2 & Hlen2 & Hoff2 & Hasked2)
    end.
    exists (asked1 ++ asked2). rewrite Htrace2. simpl. rewrite Htrace.
    rewrite fmap_app, app_assoc, length_app. split; [done|]. split; [simpl; lia|].
    split; [|by apply Forall_app].
    intros Hflags. by rewrite Hoff, Hoff2.
  - destruct (IH acc st1) as (asked2 & Htrace2 & Hlen2 & Hoff2 & Hasked2).
    exists (asked1 ++ asked2). rewrite Htrace2, Htrace.
    rewrite fmap_app, app_assoc, length_app. split; [done|]. split; [simpl; lia|].
    split; [|by apply Forall_app].
    intros Hflags. by rewrite Hoff, Hoff2.
  - exists asked1. simpl. split; [done|]. split; [simpl; lia|]. done.
  - exists asked1. simpl. split; [done|]. split; [simpl; lia|]. done.
Qed.

(** The loop on a list in two parts. *)
Lemma clean_loop_app (before after cleaned_data : list loc) (st : cleaner_state) :
  loop (before ++ after) cleaned_data st
  = match loop before cleaned_data st with
    | (st', Returned out) => loop after out st'
    | (st', Raised e) => (st', Raised e)
    | (st', OutOfFuel) => (st', OutOfFuel)
    end.
Proof.
  revert cleaned_data st. induction before as [|u rest IH]; intros acc st; [done|].
  rewrite <- app_comm_cons, !clean_loop_cons.
  destruct (clean_utterance _ _ _ _ _) as [[cw n]| |]; try done.
  simpl. destruct (is_valid_utterance _ _ _ _ _ st) as [st1 [[]| |]]; try done;
    apply IH.
Qed.

End CleanLoopMore.

(** X12.  Every record [clean_json_data] returns holds, when the run is
    over, a transcript that is not empty, has no whitespace at either end,
    is in lower case and has none of the marks removed; this also when a
    record is listed more than once. *)
Theorem clean_json_data_transcripts_clean
    (nltk_words : list string) (langid_model : LanguageIdentifier)
    (json_data : list loc) (remove_english use_langid : bool)
    (st st' : cleaner_state) (out : list loc) :
  clean_json_data nltk_words langid_model json_data remove_english use_langid st
  = (st', Returned out) ->
  forall a, a ∈ out ->
    exists text, store st' a !! "transcript" = Some (JStr text) /\ clean_transcript text.
Proof.
  rewrite clean_json_data_loop. intros Hrun.
  apply (clean_loop_clean _ _ _ _ _ _ _ _ _ Hrun).
  by intros a Ha%elem_of_nil.
Qed.

Lemma clean_json_data_transcripts_clean_witness :
  let st' := (clean_json_data ["hello"] example_identifier [0; 1; 0] true true
                example_batch).1 in
  exists text, store st' 0 !! "transcript" = Some (JStr text) /\ clean_transcript text.
Proof.
  intros st'.
  apply (clean_json_data_transcripts_clean ["hello"] example_identifier [0; 1; 0]
           true true example_batch st' [0; 0]).
  - vm_compute. reflexivity.
  - by left.
Defined.

(** X13.  A record of whose transcript the cleaning leaves no text (no
    word, or empty words only) is not returned by [clean_json_data],
    however often it is listed, and so is not written. *)
Theorem clean_json_data_drops_empty
    (nltk_words : list string) (langid_model : LanguageIdentifier)
    (json_data : list loc) (remove_english use_langid : bool)
    (st st' : cleaner_state) (out : list loc)
    (a : loc) (clean_words : list string) (count : Z) :
  clean_json_data nltk_words langid_model json_data remove_english use_langid st
  = (st', Returned out) ->
  clean_utterance (store st a) remove_english
    (Some (if remove_english then list_to_set nltk_words else ∅))
    (Some punctuation_to_remove) (Some ["<silence>"]) = Returned (clean_words, count) ->
  Str.strip (Str.join " " clean_words) = EmptyString ->
  (a ∉ out) /\ store st' a = store st a.
Proof.
  rewrite clean_json_data_loop. intros Hrun Hclean Hempty.
  assert (a ∉ out) as Hout.
  { eapply clean_loop_empty; [exact Hrun|exact Hclean|exact Hempty|].
    by intros ?%elem_of_nil. }
  split; [done|].
  change out with ([] ++ out) in Hrun.
  by rewrite (clean_loop_dropped _ _ _ _ _ _ _ _ _ _ Hrun Hout).
Qed.

Lemma clean_json_data_drops_empty_witness :
  let st' := (clean_json_data [] example_identifier [1; 0; 1] false false
                example_batch).1 in
  (1 ∉ [0]) /\ store st' 1 = store example_batch 1.
Proof.
  intros st'.
  apply (clean_json_data_drops_empty [] example_identifier [1; 0; 1] false false
           example_batch st' [0] 1 [] 0).
  - vm_compute. reflexivity.
  - vm_compute. reflexivity.
  - reflexivity.
Defined.

(** X14.  The calls a run of [clean_json_data] makes, whatever its outcome:
    the word list is fetched once, before the loop, when English is
    removed; the identifier is built once when langid is used as well; after
    that the classifier alone is asked, at most once for each reference of
    the list, on a text that is not empty and is stripped, and never unless
    both options are set. *)
Theorem clean_json_data_calls
    (nltk_words : list string) (langid_model : LanguageIdentifier)
    (json_data : list loc) (remove_english use_langid : bool) (st : cleaner_state) :
  exists asked,
    trace (clean_json_data nltk_words langid_model json_data remove_english
             use_langid st).1
    = trace st ++ setup_calls remove_english use_langid ++ (Classify <$> asked)
    /\ length asked <= length json_data
    /\ (remove_english && use_langid = false -> asked = [])
    /\ Forall (fun text => text <> EmptyString /\ Str.strip text = text) asked.
Proof.
  rewrite clean_json_data_loop.
  match goal with
  | |- context [clean_loop ?re ?ul ?ew ?id json_data [] ?st0] =>
      destruct (clean_loop_trace re ul ew id json_data [] st0)
        as (asked & Htrace & Hlen & Hoff & Hasked)
  end.
  exists asked. rewrite Htrace. simpl. unfold setup_calls.
  by rewrite <- !app_assoc.
Qed.

(** X15.  A run of [clean_json_data] stops at the first record without a
    transcript string, with the error of calling [lower] on what is there;
    the records before it have been cleaned and rewritten by then, as by a
    run on them alone. *)
Theorem clean_json_data_stops_at_missing_transcript
    (nltk_words : list string) (langid_model : LanguageIdentifier)
    (before after : list loc) (u : loc) (e : exn)
    (remove_english use_langid : bool) (st : cleaner_state) :
  has_transcripts st before ->
  transcript_lower (store st u) = Raised e ->
  exists st' out,
    clean_json_data nltk_words langid_model before remove_english use_langid st
    = (st', Returned out)
    /\ clean_json_data nltk_words langid_model (before ++ u :: after) remove_english
         use_langid st
       = (st', Raised e).
Proof.
  intros Hwf Hraise. rewrite !clean_json_data_loop.
  match goal with
  | |- context [clean_loop ?re ?ul ?ew ?id before [] ?st0] =>
      destruct (clean_loop_returns re ul ew id before [] st0) as (st' & out & Hrun);
        [by destruct remove_english, use_langid; simpl; eauto|done|]
  end.
  exists st', out. split; [done|].
  rewrite clean_loop_app, Hrun, clean_loop_cons.
  assert (u ∉ before) as Hu.
  { intros Hin. destruct (Hwf u Hin) as (t & Ht & _).
    unfold transcript_lower in Hraise. by rewrite Ht in Hraise. }
  destruct (clean_loop_sublist _ _ _ _ _ _ _ _ _ Hrun) as (kept & Hout & Hsub).
  simpl in Hout. subst out.
  assert (u ∉ kept) as Hkept by (intros ?; apply Hu; by eapply sublist_subseteq).
  change kept with ([] ++ kept) in Hrun.
  rewrite (clean_loop_dropped _ _ _ _ _ _ _ _ _ _ Hrun Hkept). simpl.
  unfold clean_utterance. by rewrite Hraise.
Qed.

Lemma clean_json_data_stops_at_missing_transcript_witness :
  exists st' out,
    clean_json_data ["hello"] example_identifier [0; 1] true false example_batch
    = (st', Returned out)
    /\ clean_json_data ["hello"] example_identifier ([0; 1] ++ 3 :: [2]) true false
         example_batch
       = (st', Raised (AttributeError "'NoneType' object has no attribute 'lower'")).
Proof.
  apply (clean_json_data_stops_at_missing_transcript ["hello"] example_identifier
           [0; 1] [2] 3 _ true false example_batch).
  - intros a Ha. apply elem_of_cons in Ha as [->|Ha];
      [|apply elem_of_cons in Ha as [->|Ha]; [|by apply elem_of_nil in Ha]];
      (eexists; split; [reflexivity|vm_compute; reflexivity]).
  - reflexivity.
Defined.

(** A verdict does not depend on the records or on the calls made before. *)
Lemma is_valid_utterance_verdict (clean_words : list string) (count : Z)
    (remove_english use_langid : bool) (langid_identifier : option LanguageIdentifier)
    (st st0 : cleaner_state) :
  (is_valid_utterance clean_words count remove_english use_langid langid_identifier st).2
  = (is_valid_utterance clean_words count remove_english use_langid langid_identifier
       st0).2.
Proof.
  unfold is_valid_utterance. destruct (String.eqb _ _); [done|].
  rewrite !run_bind. unfold lift.
  destruct (mostly_english _ _ _) as [[]| |]; try done.
  destruct (remove_english && use_langid); [|done].
  destruct langid_identifier as [identifier|]; [|done].
  unfold emit. rewrite !run_modify.
  by destruct (classify _ _) as [lang prob]; destruct (_ && _).
Qed.

Lemma clean_loop_filter (remove_english use_langid : bool) (english_words : gset string)
    (langid_identifier : option LanguageIdentifier)
    (json_data cleaned_data : list loc) (st st' : cleaner_state) (out : list loc) :
  NoDup json_data ->
  clean_loop remove_english use_langid english_words langid_identifier
    json_data cleaned_data st = (st', Returned out) ->
  out = cleaned_data
        ++ List.filter (fun a => keeps remove_english use_langid english_words
                                   langid_identifier (store st a)) json_data.
Proof.
  revert cleaned_data st. induction json_data as [|u rest IH]; intros acc st Hnd.
  { simpl. intros [= <- <-]. by rewrite app_nil_r. }
  apply NoDup_cons_1_1 in Hnd as Hu. apply NoDup_cons_1_2 in Hnd as Hrest.
  rewrite clean_loop_cons. cbn [List.filter]. unfold keeps at 1.
  destruct (clean_utterance _ _ _ _ _) as [[cw n]| |]; try done.
  pose proof (is_valid_utterance_store cw n remove_english use_langid
                langid_identifier st) as Hst.
  rewrite (is_valid_utterance_verdict cw n remove_english use_langid langid_identifier
             {| store := fun _ => ∅; trace := [] |} st).
  simpl. destruct (is_valid_utterance _ _ _ _ _ st) as [st1 [[]| |]];
    simpl in Hst |- *; try done.
  - intros Hrun. rewrite (IH _ _ Hrest Hrun), <- app_assoc. simpl. do 2 f_equal.
    apply List.filter_ext_in. intros a Ha%list_elem_of_In.
    rewrite fn_lookup_insert_ne by (by intros ->). by rewrite Hst.
  - intros Hrun. rewrite (IH _ _ Hrest Hrun). f_equal.
    apply List.filter_ext_in. intros a Ha. by rewrite Hst.
Qed.

(** X16.  When no record is listed twice, each is judged on the transcript
    it came with, whatever was kept before it: the list [clean_json_data]
    returns is the list given, filtered by the verdict on the records as
    they were. *)
Theorem clean_json_data_filters
    (nltk_words : list string) (langid_model : LanguageIdentifier)
    (json_data : list loc) (remove_english use_langid : bool)
    (st st' : cleaner_state) (out : list loc) :
  NoDup json_data ->
  clean_json_data nltk_words langid_model json_data remove_english use_langid st
  = (st', Returned out) ->
  out = List.filter
          (fun a => keeps remove_english use_langid
                      (if remove_english then list_to_set nltk_words else ∅)
                      (if remove_english && use_langid then Some langid_model else None)
                      (store st a))
          json_data.
Proof.
  rewrite clean_json_data_loop. intros Hnd Hrun.
  by rewrite (clean_loop_filter _ _ _ _ _ _ _ _ _ Hnd Hrun).
Qed.

Lemma clean_json_data_filters_witness :
  [0; 2]
  = List.filter
      (fun a => keeps true true (list_to_set ["hello"]) (Some example_identifier)
                  (store example_batch a))
      [0; 1; 2].
Proof.
  apply (clean_json_data_filters ["hello"] example_identifier [0; 1; 2] true true
           example_batch
           (clean_json_data ["hello"] example_identifier [0; 1; 2] true true
              example_batch).1
           [0; 2]).
  - by apply (bool_decide_unpack _); vm_compute.
  - vm_compute. reflexivity.
Defined.

(** ** The reader of [textgrid_to_elan.py] *)

Lemma split_space_shape (s : string) :
  (has_space s = false /\ split_space s = [s])
  \/ (exists key rest,
        s = key +:+ " " +:+ rest /\ has_space key = false
        /\ split_space s = key :: split_space rest).
Proof.
  unfold has_space. induction s as [|c s IH]; [by left|].
  simpl. destruct (Ascii.eqb c " ") eqn:E.
  - apply Ascii.eqb_eq in E as ->. right. by exists EmptyString, s.
  - destruct IH as [[Hno ->]|(key & rest & -> & Hkey & ->)]; [by left|].
    right. exists (String c key), rest. simpl. by rewrite E.
Qed.

Lemma has_space_append (s t : string) :
  has_space (s +:+ t) = has_space s || has_space t.
Proof.
  unfold has_space. induction s as [|c s IH]; [done|].
  rewrite append_cons. simpl. by rewrite IH, orb_assoc.
Qed.

(** X17.  [get_first_wav] reads nothing but the first line.  Without a
    space in it (an empty file too) it raises [IndexError]; otherwise it
    returns what stands between the first space and the next one, or the
    end of the line. *)
Theorem get_first_wav_outcomes (wav_scp : string) :
  (has_space (readline wav_scp) = false
   /\ get_first_wav wav_scp = Raised (IndexError "list index out of range"))
  \/ (exists key wav rest,
        readline wav_scp = key +:+ " " +:+ wav +:+ rest
        /\ has_space key = false /\ has_space wav = false
        /\ (rest = EmptyString \/ exists more, rest = " " +:+ more)
        /\ get_first_wav wav_scp = Returned wav).
Proof.
  unfold get_first_wav.
  destruct (split_space_shape (readline wav_scp))
    as [[Hno ->]|(key & rest & -> & Hkey & ->)]; [by left|].
  right. destruct (split_space_shape rest)
    as [[Hno Hrest]|(wav & more & -> & Hwav & Hrest)]; rewrite Hrest.
  - exists key, rest, EmptyString. rewrite append_nil_r.
    split; [done|]. do 2 (split; [done|]). split; [by left|done].
  - exists key, wav, (" " +:+ more). split; [done|]. do 2 (split; [done|]).
    split; [right; by exists more|done].
Qed.

Lemma readlines_aux_word (word s cur : string) :
  single_line word = true ->
  Str.readlines_aux (word +:+ s) cur = Str.readlines_aux s (cur +:+ word).
Proof.
  unfold single_line. revert cur. induction word as [|c word IH]; intros cur Hw.
  - by rewrite append_nil_l, append_nil_r.
  - simpl in Hw. apply andb_true_iff in Hw as [Hc Hw]. apply negb_true_iff in Hc.
    rewrite append_cons. simpl. rewrite Hc, IH by done. by rewrite append_assoc.
Qed.

Lemma single_line_append (s t : string) :
  single_line (s +:+ t) = single_line s && single_line t.
Proof. apply forallb_append. Qed.

(** X18.  On a first line [key wav] that ends in a line feed,
    [get_first_wav] returns [wav] with the line feed still on it. *)
Theorem get_first_wav_keeps_line_end (key wav more : string) :
  has_space key = false -> single_line key = true ->
  has_space wav = false -> single_line wav = true ->
  get_first_wav (key +:+ " " +:+ wav +:+ Str.nl +:+ more) = Returned (wav +:+ Str.nl).
Proof.
  intros Hkey Hkey' Hwav Hwav'. unfold get_first_wav, readline, Str.readlines.
  replace (key +:+ " " +:+ wav +:+ Str.nl +:+ more)
    with ((key +:+ " " +:+ wav) +:+ Str.nl +:+ more) by (by rewrite !append_assoc).
  rewrite readlines_aux_word
    by (by rewrite !single_line_append, Hkey', Hwav').
  unfold Str.nl at 1. rewrite append_cons, append_nil_l, append_nil_l.
  cbn [Str.readlines_aux]. change (Ascii.eqb "010" "010") with true. cbv iota.
  rewrite !append_assoc.
  destruct (split_space_shape (key +:+ " " +:+ wav +:+ Str.nl))
    as [[Hno _]|(key' & rest & Heq & Hkey'' & ->)].
  { by rewrite !has_space_append, orb_true_r in Hno. }
  assert (key' = key /\ rest = wav +:+ Str.nl) as [-> ->].
  { clear -Heq Hkey Hkey''. unfold has_space in *.
    revert key' Heq Hkey''. induction key as [|c key IH]; intros key' Heq Hkey''.
    - destruct key' as [|c' key']; [by injection Heq|].
      rewrite append_nil_l, !append_cons in Heq. injection Heq as <- _.
      simpl in Hkey''. done.
    - destruct key' as [|c' key'].
      + rewrite append_nil_l, !append_cons in Heq. injection Heq as -> _.
        simpl in Hkey. done.
      + rewrite !append_cons in Heq. injection Heq as <- Heq.
        simpl in Hkey, Hkey''. apply orb_false_iff in Hkey as [_ Hkey].
        apply orb_false_iff in Hkey'' as [_ Hkey''].
        destruct (IH Hkey key' Heq Hkey'') as [-> ->]. done. }
  destruct (split_space_shape (wav +:+ Str.nl))
    as [[_ ->]|(w & r & Heq' & _ & _)]; [done|].
  apply (f_equal has_space) in Heq'.
  rewrite !has_space_append, Hwav in Heq'. simpl in Heq'.
  by rewrite orb_true_r in Heq'.
Qed.

Lemma get_first_wav_keeps_line_end_witness :
  get_first_wav ("utt1" +:+ " " +:+ "audio/a.wav" +:+ Str.nl +:+ "utt2 audio/b.wav")
  = Returned ("audio/a.wav" +:+ Str.nl).
Proof.
  apply (get_first_wav_keeps_line_end "utt1" "audio/a.wav" "utt2 audio/b.wav");
    reflexivity.
Defined.

(** ** The file filter of [resample_audio.py] *)

Lemma existsb_append (p : ascii -> bool) (s t : string) :
  Str.existsb p (s +:+ t) = Str.existsb p s || Str.existsb p t.
Proof.
  induction s as [|x s IH]; [done|].
  rewrite append_cons. simpl. by rewrite IH, orb_assoc.
Qed.

Lemma contains_append (c : ascii) (s t : string) :
  contains c (s +:+ t) = contains c s || contains c t.
Proof. apply existsb_append. Qed.

Lemma rfind_spec (c : ascii) (s : string) :
  (contains c s = false /\ Path.rfind c s = (-1)%Z)
  \/ (exists pre post,
        s = pre +:+ String c post /\ contains c post = false
        /\ Path.rfind c s = Z.of_nat (String.length pre)).
Proof.
  unfold contains. induction s as [|x s IH]; [by left|].
  simpl. destruct IH as [[Hno ->]|(pre & post & -> & Hpost & ->)].
  - simpl. destruct (Ascii.eqb x c) eqn:E.
    + apply Ascii.eqb_eq in E as ->. right. by exists EmptyString, s.
    + left. by rewrite Hno.
  - right. exists (String x pre), post. split; [done|]. split; [done|].
    destruct (0 <=? _)%Z eqn:E; [simpl; lia|]. apply Z.leb_gt in E. lia.
Qed.

Lemma rfind_none (c : ascii) (s : string) :
  contains c s = false -> Path.rfind c s = (-1)%Z.
Proof.
  unfold contains. induction s as [|x s IH]; [done|].
  simpl. intros [Hx Hs]%orb_false_iff. by rewrite IH, Hx.
Qed.

Lemma rfind_app_none (c : ascii) (s t : string) :
  contains c t = false -> Path.rfind c (s +:+ t) = Path.rfind c s.
Proof.
  intros Ht. induction s as [|x s IH]; [by apply rfind_none|].
  rewrite append_cons. simpl. by rewrite IH.
Qed.

Lemma rfind_app_last (c : ascii) (pre post : string) :
  contains c post = false ->
  Path.rfind c (pre +:+ String c post) = Z.of_nat (String.length pre).
Proof.
  intros Hpost. induction pre as [|x pre IH].
  - rewrite append_nil_l. simpl. by rewrite (rfind_none _ _ Hpost), Ascii.eqb_refl.
  - rewrite append_cons. simpl. rewrite IH.
    destruct (0 <=? _)%Z eqn:E; [lia|]. apply Z.leb_gt in E. lia.
Qed.

Lemma substring_at (pre : string) (x : ascii) (t : string) :
  String.substring (String.length pre) 1 (pre +:+ String x t) = String x EmptyString.
Proof.
  induction pre as [|y pre IH]; [by destruct t|]. by rewrite append_cons.
Qed.

Lemma past_leading_dots_spec (pre mid rest : string) :
  Path.past_leading_dots (pre +:+ mid +:+ rest) (String.length pre) (String.length mid)
  = Str.existsb (fun x => negb (Ascii.eqb x ".")) mid.
Proof.
  revert pre. induction mid as [|x mid IH]; intros pre; [done|].
  rewrite append_cons. simpl. rewrite substring_at.
  change (String.eqb (String x EmptyString) ".") with
    (if Ascii.eqb x "." then true else false).
  destruct (Ascii.eqb x "."); simpl; [|done].
  specialize (IH (pre +:+ String x EmptyString)).
  rewrite length_append in IH. simpl in IH. rewrite Nat.add_1_r in IH.
  rewrite <- IH. by rewrite append_assoc.
Qed.

Lemma existsb_split (p : ascii -> bool) (s : string) :
  Str.existsb p s = true ->
  exists before c after, s = before +:+ String c after /\ p c = true.
Proof.
  induction s as [|x s IH]; [done|]. simpl. destruct (p x) eqn:E.
  - intros _. by exists EmptyString, x, s.
  - simpl. intros (before & c & after & -> & Hc)%IH.
    by exists (String x before), c, after.
Qed.

Lemma slice_to_app (s t : string) : slice_to (String.length s) (s +:+ t) = s.
Proof.
  induction s as [|x s IH]; [by destruct t|]. rewrite append_cons. simpl. by rewrite IH.
Qed.

Lemma slice_from_app (s t : string) : slice_from (String.length s) (s +:+ t) = t.
Proof. induction s as [|x s IH]; [done|]. by rewrite append_cons. Qed.

Lemma append_cut (pre post name rest : string) (a b : ascii) :
  pre +:+ String a post = name +:+ String b rest ->
  String.length pre < String.length name ->
  exists mid, name = pre +:+ String a mid /\ post = mid +:+ String b rest.
Proof.
  revert name. induction pre as [|x pre IH]; intros name Heq Hlen.
  - destruct name as [|y name]; [simpl in Hlen; lia|].
    rewrite append_nil_l, append_cons in Heq. injection Heq as <- ->. by exists name.
  - destruct name as [|y name]; [simpl in Hlen; lia|].
    rewrite !append_cons in Heq. injection Heq as <- Heq.
    destruct (IH name Heq) as (mid & -> & ->); [simpl in Hlen; lia|]. by exists mid.
Qed.

(** The extension of a name with a character other than a dot before its
    last dot, in its last component. *)
Lemma splitext_ext (before : string) (c : ascii) (after e : string) :
  c <> "."%char -> c <> "/"%char ->
  contains "/" after = false -> contains "." e = false -> contains "/" e = false ->
  Path.splitext (before +:+ String c after +:+ String "." e)
  = (before +:+ String c after, String "." e).
Proof.
  intros Hdot Hsep Hafter He He'. unfold Path.splitext.
  assert (Ascii.eqb c "/" = false) as Hsep' by (by apply Ascii.eqb_neq).
  assert (Ascii.eqb c "." = false) as Hdot' by (by apply Ascii.eqb_neq).
  rewrite <- (append_assoc before (String c after) (String "." e)).
  rewrite (rfind_app_last "." _ e He).
  rewrite (rfind_app_none "/" _ (String "." e)) by (unfold contains in *; simpl; done).
  rewrite (rfind_app_none "/" before (String c after))
    by (unfold contains in *; simpl; by rewrite Hsep').
  rewrite Nat2Z.id, slice_to_app, slice_from_app.
  rewrite length_append. simpl String.length.
  destruct (rfind_spec "/" before) as [[_ ->]|(pre & post & -> & _ & ->)].
  - replace (Z.to_nat (-1 + 1)) with 0 by done.
    replace (Z.to_nat _) with (String.length (before +:+ String c after))
      by (rewrite length_append; simpl; lia).
    pose proof (past_leading_dots_spec EmptyString (before +:+ String c after)
                  (String "." e)) as Hloop.
    rewrite append_nil_l in Hloop. change (String.length EmptyString) with 0 in Hloop.
    rewrite Hloop.
    assert (Str.existsb (fun x => negb (Ascii.eqb x ".")) (before +:+ String c after)
            = true) as ->.
    { rewrite existsb_append. simpl. by rewrite Hdot', orb_true_r. }
    rewrite andb_true_r.
    destruct (_ <? _)%Z eqn:E; [done|]. apply Z.ltb_ge in E. lia.
  - replace (Z.to_nat (Z.of_nat (String.length pre) + 1))
      with (String.length (pre +:+ "/")) by (rewrite length_append; simpl; lia).
    rewrite length_append. simpl String.length.
    replace (Z.to_nat _) with (String.length (post +:+ String c after))
      by (rewrite length_append; simpl; lia).
    replace (((pre +:+ String "/" post) +:+ String c after) +:+ String "." e)
      with ((pre +:+ "/") +:+ (post +:+ String c after) +:+ String "." e)
      by (by rewrite !append_assoc).
    rewrite past_leading_dots_spec.
    assert (Str.existsb (fun x => negb (Ascii.eqb x ".")) (post +:+ String c after)
            = true) as ->.
    { rewrite existsb_append. simpl. by rewrite Hdot', orb_true_r. }
    rewrite andb_true_r.
    destruct (_ <? _)%Z eqn:E; [by rewrite !append_assoc|]. apply Z.ltb_ge in E. lia.
Qed.

(** An extension that is not empty comes from such a name. *)
Lemma splitext_inv (p name ext : string) :
  Path.splitext p = (name, ext) -> ext <> EmptyString ->
  exists before c after e,
    p = before +:+ String c after +:+ String "." e
    /\ c <> "."%char /\ c <> "/"%char
    /\ contains "/" after = false /\ contains "." e = false /\ contains "/" e = false
    /\ name = before +:+ String c after /\ ext = String "." e.
Proof.
  unfold Path.splitext. intros Hsplit Hext.
  destruct (_ && _) eqn:Hcond; [|by injection Hsplit as _ <-].
  apply andb_true_iff in Hcond as [Hlt Hloop]. apply Z.ltb_lt in Hlt.
  destruct (rfind_spec "." p) as [[_ Hd]|(name0 & e & -> & He & Hd)];
    rewrite Hd in *.
  { destruct (rfind_spec "/" p) as [[_ Hs]|(pre & post & _ & _ & Hs)]; lia. }
  rewrite Nat2Z.id, slice_to_app, slice_from_app in Hsplit.
  injection Hsplit as <- <-.
  destruct (rfind_spec "/" (name0 +:+ String "." e))
    as [[Hno Hs]|(pre & post & Heq & Hpost & Hs)]; rewrite Hs in *.
  - rewrite contains_append in Hno. apply orb_false_iff in Hno as [Hname He'].
    replace (Z.to_nat (-1 + 1)) with 0 in Hloop by done.
    replace (Z.to_nat _) with (String.length name0) in Hloop by lia.
    pose proof (past_leading_dots_spec EmptyString name0 (String "." e)) as Hspec.
    rewrite append_nil_l in Hspec. change (String.length EmptyString) with 0 in Hspec.
    rewrite Hspec in Hloop.
    apply existsb_split in Hloop as (before & c & after & -> & Hc).
    apply negb_true_iff, Ascii.eqb_neq in Hc.
    rewrite contains_append in Hname. apply orb_false_iff in Hname as [_ Hname].
    unfold contains in Hname, He'. simpl in Hname, He'.
    apply orb_false_iff in Hname as [Hcs Hafter]. apply Ascii.eqb_neq in Hcs.
    exists before, c, after, e. rewrite append_assoc. by repeat split.
  - destruct (append_cut pre post name0 e "/" "." (eq_sym Heq) ltac:(lia)) as (mid & -> & ->).
    rewrite contains_append in Hpost. apply orb_false_iff in Hpost as [Hmid He'].
    replace (Z.to_nat (Z.of_nat (String.length pre) + 1))
      with (String.length (pre +:+ "/")) in Hloop by (rewrite length_append; simpl; lia).
    replace (Z.to_nat _) with (String.length mid) in Hloop
      by (rewrite length_append; simpl; lia).
    replace ((pre +:+ String "/" mid) +:+ String "." e)
      with ((pre +:+ "/") +:+ mid +:+ String "." e) in Hloop
      by (by rewrite !append_assoc).
    rewrite past_leading_dots_spec in Hloop.
    apply existsb_split in Hloop as (before & c & after & -> & Hc).
    apply negb_true_iff, Ascii.eqb_neq in Hc.
    rewrite contains_append in Hmid. apply orb_false_iff in Hmid as [_ Hmid].
    unfold contains in Hmid, He'. simpl in Hmid, He'.
    apply orb_false_iff in Hmid as [Hcs Hafter]. apply Ascii.eqb_neq in Hcs.
    exists (pre +:+ String "/" before), c, after, e.
    rewrite !append_assoc, !append_cons, !append_assoc. by repeat split.
Qed.

Lemma find_files_loop_filter (set_of_all_files : list string) (extensions : gset string)
    (res : list string) :
  find_files_loop set_of_all_files extensions res
  = res ++ List.filter
             (fun f => bool_decide ("*" +:+ Str.lower (Path.splitext f).2 ∈ extensions))
             set_of_all_files.
Proof.
  revert res. induction set_of_all_files as [|f rest IH]; intros res; simpl.
  - by rewrite app_nil_r.
  - destruct (Path.splitext f) as [name ext]. simpl.
    destruct (bool_decide _); rewrite IH; [|done]. by rewrite <- app_assoc.
Qed.

Lemma lower_char_mark (x c : ascii) :
  c = "."%char \/ c = "/"%char ->
  Ascii.eqb (Str.lower_char x) c = Ascii.eqb x c.
Proof. intros [-> | ->]; by destruct x as [[] [] [] [] [] [] [] []]. Qed.

Lemma contains_lower (c : ascii) (s : string) :
  c = "."%char \/ c = "/"%char ->
  contains c (Str.lower s) = contains c s.
Proof.
  intros Hc. unfold contains. induction s as [|x s IH]; [done|].
  simpl. by rewrite IH, lower_char_mark.
Qed.

(** X19.  With one pattern ["*." + e] to look for, [find_files_by_extension]
    returns the files whose name ends in a dot and [e], in any mix of
    upper and lower case, the dot coming after a character of the last
    component of the path that is not a dot itself: no hidden file without
    extension, no file of a directory so named. *)
Theorem find_files_by_extension_matches (set_of_all_files : list string)
    (e f : string) :
  contains "." e = false -> contains "/" e = false ->
  f ∈ find_files_by_extension set_of_all_files {[ "*." +:+ e ]}
  <-> f ∈ set_of_all_files
      /\ exists before c after ext,
           f = before +:+ String c after +:+ "." +:+ ext
           /\ c <> "."%char /\ c <> "/"%char
           /\ contains "/" after = false
           /\ Str.lower ext = e.
Proof.
  intros He He'. unfold find_files_by_extension.
  rewrite find_files_loop_filter, app_nil_l.
  rewrite list_elem_of_In, List.filter_In, <- list_elem_of_In.
  rewrite bool_decide_eq_true, elem_of_singleton.
  split; intros [Hin Hext]; (split; [done|]).
  - destruct (Path.splitext f) as [name ext] eqn:Hsplit. simpl in Hext.
    change ("*." +:+ e) with ("*" +:+ String "." e) in Hext.
    rewrite !append_cons, !append_nil_l in Hext. injection Hext as Hext.
    apply splitext_inv in Hsplit as
        (before & c & after & ext' & -> & Hc & Hc' & Hafter & _ & _ & _ & ->);
      [|by destruct ext].
    simpl in Hext. injection Hext as Hext.
    by exists before, c, after, ext'.
  - destruct Hext as (before & c & after & ext & -> & Hc & Hc' & Hafter & Hlower).
    change ("." +:+ ext) with (String "." ext).
    rewrite splitext_ext; try done.
    + simpl. by rewrite Hlower.
    + rewrite <- (contains_lower "." ext), Hlower by auto. done.
    + rewrite <- (contains_lower "/" ext), Hlower by auto. done.
Qed.

Lemma find_files_by_extension_matches_witness :
  "corpus/a.b/Take1.WAV"
  ∈ find_files_by_extension ["corpus/.wav"; "corpus/a.b/Take1.WAV"; "corpus/x.wav/y"]
      {[ "*." +:+ "wav" ]}.
Proof.
  apply (find_files_by_extension_matches
           ["corpus/.wav"; "corpus/a.b/Take1.WAV"; "corpus/x.wav/y"]
           "wav" "corpus/a.b/Take1.WAV"); [reflexivity|reflexivity|].
  split; [by apply (bool_decide_unpack _); vm_compute|].
  exists "corpus/a.b/", "T"%char, "ake1", "WAV".
  split; [reflexivity|]. split; [discriminate|]. split; [discriminate|].
  split; reflexivity.
Defined.

(** ** Cleaning what has been cleaned *)

(** What holds of every word the loop of [clean_utterance] lets through
    holds of the words it returns. *)
Lemma clean_words_loop_invariant (Q : string -> Prop)
    (remove_english : bool) (english_words : option (gset string))
    (punctuation : option string) (special_cases : option (list string))
    (words clean_words : list string) (count : Z) (kept : list string) (english : Z) :
  (forall word,
      word ∈ words ->
      Str.search_digit word && negb (Str.isdigit word) = false ->
      (remove_english && (3 <? String.length (unmarked punctuation word)) = true ->
       in_english_words english_words (unmarked punctuation word) = Returned false) ->
      Q (unmarked punctuation word)) ->
  Forall Q clean_words ->
  clean_words_loop remove_english english_words punctuation special_cases
    words clean_words count = Returned (kept, english) ->
  Forall Q kept.
Proof.
  revert clean_words count. induction words as [|word rest IH]; intros cw count HQ Hcw.
  { simpl. by intros [= <- <-]. }
  assert (forall word0,
             word0 ∈ rest ->
             Str.search_digit word0 && negb (Str.isdigit word0) = false ->
             (remove_english && (3 <? String.length (unmarked punctuation word0)) = true ->
              in_english_words english_words (unmarked punctuation word0)
              = Returned false) ->
             Q (unmarked punctuation word0)) as HQ'.
  { intros word0 Hin. apply HQ. by right. }
  specialize (HQ word ltac:(by left)).
  simpl. destruct (is_special_case _ _); [by apply IH|].
  destruct (bool_decide _); [intros [= <- <-]; constructor|].
  destruct (_ && negb _); [intros [= <- <-]; constructor|].
  fold (unmarked punctuation word).
  destruct (remove_english && _) eqn:E.
  - destruct (in_english_words _ _) as [[]| |]; simpl; try done; [by apply IH|].
    apply IH; [done|]. apply Forall_app. split; [done|]. repeat constructor. by apply HQ.
  - apply IH; [done|]. apply Forall_app. split; [done|]. repeat constructor.
    by apply HQ.
Qed.

Lemma existsb_remove_char (p : ascii -> bool) (mark : ascii) (s : string) :
  Str.existsb p s = false -> Str.existsb p (Str.remove_char mark s) = false.
Proof.
  induction s as [|c s IH]; simpl; [done|].
  intros [Hc Hs]%orb_false_iff. destruct (Ascii.eqb c mark); simpl; [auto|].
  by rewrite Hc, IH.
Qed.

Lemma existsb_remove_marks (p : ascii -> bool) (marks word : string) :
  Str.existsb p word = false -> Str.existsb p (remove_marks marks word) = false.
Proof.
  revert word. induction marks as [|mark rest IH]; intros word Hw; simpl; [done|].
  by apply IH, existsb_remove_char.
Qed.

Lemma remove_char_id (mark : ascii) (s : string) :
  contains mark s = false -> Str.remove_char mark s = s.
Proof.
  unfold contains. induction s as [|c s IH]; simpl; [done|].
  intros [Hc Hs]%orb_false_iff. by rewrite Hc, IH.
Qed.

Lemma free_of_contains (marks word : string) (mark : ascii) :
  free_of marks word = true -> contains mark marks = true -> contains mark word = false.
Proof.
  unfold free_of. induction word as [|c w IH]; [done|].
  simpl. intros [Hc Hw]%andb_true_iff Hmark. unfold contains at 1. simpl.
  fold (contains mark w). rewrite IH by done. rewrite orb_false_r.
  apply negb_true_iff in Hc. destruct (Ascii.eqb c mark) eqn:E; [|done].
  apply Ascii.eqb_eq in E as ->. by rewrite Hmark in Hc.
Qed.

(** A word with none of the marks is left as it is. *)
Lemma remove_marks_id (marks word : string) :
  free_of marks word = true -> remove_marks marks word = word.
Proof.
  intros Hfree.
  assert (forall mark, contains mark marks = true -> contains mark word = false) as Hall.
  { intros mark. by apply free_of_contains. }
  clear Hfree. induction marks as [|mark rest IH]; simpl; [done|].
  rewrite remove_char_id.
  - apply IH. intros m Hm. apply Hall. unfold contains in *. simpl.
    by rewrite Hm, orb_true_r.
  - apply Hall. unfold contains. simpl. by rewrite Ascii.eqb_refl.
Qed.

Lemma in_english_words_false (english_words : gset string) (w : string) :
  in_english_words (Some english_words) w = Returned false -> w ∉ english_words.
Proof.
  unfold in_english_words. intros [= Hin]. by apply bool_decide_eq_false in Hin.
Qed.

(** The loop on words that none of its tests stops. *)
Lemma clean_words_loop_fixed (remove_english : bool) (english_words : gset string)
    (marks : string) (special_cases : list string)
    (words clean_words : list string) (count : Z) :
  Forall (fun w => (w ∉ special_cases)
                   /\ (w ∉ translation_tags)
                   /\ Str.search_digit w && negb (Str.isdigit w) = false
                   /\ free_of marks w = true
                   /\ (remove_english && (3 <? String.length w) = true
                       -> w ∉ english_words)) words ->
  clean_words_loop remove_english (Some english_words) (Some marks) (Some special_cases)
    words clean_words count = Returned (clean_words ++ words, count).
Proof.
  intros Hwords. revert clean_words.
  induction Hwords as [|w rest (Hsc & Htag & Hdigit & Hfree & Heng) _ IH]; intros cw.
  { by rewrite app_nil_r. }
  simpl. rewrite (bool_decide_eq_false_2 _ Hsc), (bool_decide_eq_false_2 _ Htag), Hdigit.
  rewrite (remove_marks_id _ _ Hfree).
  destruct (remove_english && _).
  - simpl. rewrite (bool_decide_eq_false_2 _ (Heng eq_refl)).
    rewrite IH. by rewrite <- app_assoc.
  - rewrite IH. by rewrite <- app_assoc.
Qed.

(** X20.  Cleaning a transcript that [clean_json_data] has written finds
    nothing more to remove: the words kept the first time are kept again,
    the empty ones apart, and no English word is counted. *)
Theorem clean_utterance_again (utterance : gmap string json)
    (remove_english : bool) (english_words : gset string)
    (clean_words : list string) (english_word_count : Z) :
  clean_utterance utterance remove_english (Some english_words)
    (Some punctuation_to_remove) (Some ["<silence>"])
  = Returned (clean_words, english_word_count) ->
  clean_utterance
    (<["transcript" := JStr (Str.strip (Str.join " " clean_words))]> utterance)
    remove_english (Some english_words) (Some punctuation_to_remove) (Some ["<silence>"])
  = Returned (List.filter Str.truthy clean_words, 0%Z).
Proof.
  intros Hrun.
  pose proof (kept_words_lower _ _ _ _ _ _ _ Hrun) as Hlower.
  pose proof (kept_words_no_whitespace _ _ _ _ _ _ _ Hrun) as Hws.
  pose proof (kept_words_free _ _ _ _ _ _ _ Hrun) as Hfree.
  assert (Forall (fun w => (Str.search_digit w = false
                            \/ Str.forallb Str.isdigit_char w = true)
                           /\ (remove_english && (3 <? String.length w) = true
                               -> w ∉ english_words)) clean_words) as Hkept.
  { revert Hrun. unfold clean_utterance.
    destruct (transcript_lower utterance) as [s| |]; try done. simpl.
    apply clean_words_loop_invariant; [|constructor].
    intros word _ Hdigit Heng. split.
    - apply andb_false_iff in Hdigit as [Hdigit|Hdigit].
      + left. by apply existsb_remove_marks.
      + right. apply negb_false_iff in Hdigit. apply forallb_remove_marks.
        by destruct word.
    - intros Hlong. by apply in_english_words_false, Heng. }
  unfold clean_utterance, transcript_lower. rewrite lookup_insert_eq. simpl.
  rewrite (forallb_lower (Str.strip _))
    by (by apply forallb_strip, forallb_join).
  rewrite split_strip, split_join by done.
  apply (clean_words_loop_fixed remove_english english_words punctuation_to_remove
           ["<silence>"] (List.filter Str.truthy clean_words) [] 0%Z).
  apply list.Forall_forall. intros w Hw.
  apply list_elem_of_In, List.filter_In in Hw as [Hw Htrue].
  apply list_elem_of_In in Hw.
  rewrite list.Forall_forall in Hkept, Hfree.
  destruct (Hkept w Hw) as [Hdigit Heng]. specialize (Hfree w Hw).
  split; [|split; [|split; [|split]]]; try done.
  - intros ->%list_elem_of_singleton. by vm_compute in Hfree.
  - unfold translation_tags.
    intros [->|[->|[->|[]%elem_of_nil]%elem_of_cons]%elem_of_cons]%elem_of_cons;
      by vm_compute in Hfree.
  - destruct Hdigit as [->|Hdigit]; [done|].
    apply andb_false_iff. right. apply negb_false_iff. by destruct w.
Qed.

Lemma clean_utterance_again_witness :
  clean_utterance
    (<["transcript" := JStr (Str.strip (Str.join " " ["kia"; "ora"; ""; "its"]))]>
       {[ "transcript" := JStr "Kia ora, hello ... it's" ]})
    true (Some {[ "hello" ]}) (Some punctuation_to_remove) (Some ["<silence>"])
  = Returned (List.filter Str.truthy ["kia"; "ora"; ""; "its"], 0%Z).
Proof.
  apply (clean_utterance_again {[ "transcript" := JStr "Kia ora, hello ... it's" ]}
           true {[ "hello" ]} ["kia"; "ora"; ""; "its"] 1).
  vm_compute. reflexivity.
Defined.
